(** * DerivTrader: the session connector, the client registry, the fan-out
      hub and the in-memory storage, embedded from the TypeScript sources.

    Layout
    - [JS]            the handful of ECMAScript primitives the code relies on:
                      binary64 Numbers, [parseFloat], [Number.prototype.toString],
                      [Number.prototype.toFixed], truthiness of strings.
    - [Storage]       [MemStorage] of server/storage.ts.
    - [Deriv]         [DerivAPI] of server/deriv-api.ts, with its transports,
                      timers and emitted events made explicit.
    - [Manager]       [ClientManager] of server/client-manager.ts.
    - [Routes]        the tick handler, the broadcast loop and the trade
                      endpoints of server/routes.ts.
    The predicates and scenarios of the theorems come next, and the
    theorems, grouped by component, last.  Each theorem that settles a
    numbered claim of the specification (C1 to C10) says so in its
    comment. *)

From Stdlib Require Import ZArith List String Ascii Bool Lia DecimalString.
From Stdlib Require Import Floats.SpecFloat.
From stdpp Require Import gmap strings list.

Local Open Scope Z_scope.

(* ===================================================================== *)
(** ** ECMAScript primitives *)
(* ===================================================================== *)

Module JS.

(** A Number is an IEEE-754 binary64 value. *)
Definition Number := spec_float.

Definition prec : Z := 53.
Definition emax : Z := 1024.

Definition NaN : Number := S754_nan.
Definition pos_zero : Number := S754_zero false.
Definition Infinity : Number := S754_infinity false.

(** [x > y] on Numbers (false as soon as one side is NaN). *)
Definition gt (x y : Number) : bool := SFltb y x.
Definition lt (x y : Number) : bool := SFltb x y.

(** The Number nearest to [(-1)^neg * m * 10^e], ties to even: the value
    a decimal literal denotes. *)
Definition of_decimal (neg : bool) (m : N) (e : Z) : Number :=
  match m with
  | N0 => S754_zero neg
  | Npos p =>
      if 0 <=? e
      then binary_normalize prec emax
             (cond_Zopp neg (Z.pos p * 10 ^ e)) 0 neg
      else SFdiv prec emax (S754_finite neg p 0)
                           (S754_finite false (Z.to_pos (10 ^ (- e))) 0)
  end.

Definition of_Z (z : Z) : Number :=
  binary_normalize prec emax z 0 false.

Definition mul (x y : Number) : Number := SFmul prec emax x y.

(** [Math.floor] of a finite Number, as a mathematical integer.  It is
    only applied to [Math.random() * 1000000000], which is finite. *)
Definition floorZ (x : Number) : Z :=
  match x with
  | S754_finite s m e => Z.shiftl (cond_Zopp s (Z.pos m)) e
  | _ => 0
  end.

(** *** Characters and digits *)

Definition is_digit (c : ascii) : bool :=
  let n := N_of_ascii c in ((48 <=? n) && (n <=? 57))%N.

Definition digit_val (c : ascii) : N := (N_of_ascii c - 48)%N.

(** StrWhiteSpaceChar restricted to code units below 256:
    TAB, LF, VT, FF, CR, SP and NBSP. *)
Definition is_ws (c : ascii) : bool :=
  let n := N_of_ascii c in
  ((n =? 9) || (n =? 10) || (n =? 11) || (n =? 12) || (n =? 13)
   || (n =? 32) || (n =? 160))%N.

Fixpoint trim_start (s : string) : string :=
  match s with
  | String c r => if is_ws c then trim_start r else s
  | EmptyString => s
  end.

(** Longest run of decimal digits at the head of [s]: its value, its
    length, and what follows. *)
Fixpoint take_digits (acc : N) (len : nat) (s : string) : N * nat * string :=
  match s with
  | String c r =>
      if is_digit c
      then take_digits (10 * acc + digit_val c)%N (S len) r
      else (acc, len, s)
  | EmptyString => (acc, len, s)
  end.

(** ExponentPart, when one is present at the head of [s]; [0] otherwise
    (the longest valid prefix then stops before the [e]). *)
Definition exponent_part (s : string) : Z :=
  match s with
  | String c r =>
      if (Ascii.eqb c "e" || Ascii.eqb c "E")%bool then
        match r with
        | String "+" r' =>
            let '(v, len, _) := take_digits 0 0 r' in
            if Nat.eqb len 0 then 0 else Z.of_N v
        | String "-" r' =>
            let '(v, len, _) := take_digits 0 0 r' in
            if Nat.eqb len 0 then 0 else - Z.of_N v
        | _ =>
            let '(v, len, _) := take_digits 0 0 r in
            if Nat.eqb len 0 then 0 else Z.of_N v
        end
      else 0
  | EmptyString => 0
  end.

(** StrUnsignedDecimalLiteral at the head of [s], with the sign already
    read. *)
Definition unsigned_literal (neg : bool) (s : string) : Number :=
  if String.prefix "Infinity" s then S754_infinity neg
  else
    let '(ip, ilen, r1) := take_digits 0 0 s in
    match r1 with
    | String "." r2 =>
        let '(m, flen, r3) := take_digits ip 0 r2 in
        if (Nat.eqb ilen 0 && Nat.eqb flen 0)%bool then NaN
        else of_decimal neg m (exponent_part r3 - Z.of_nat flen)
    | _ =>
        if Nat.eqb ilen 0 then NaN
        else of_decimal neg ip (exponent_part r1)
    end.

(** [parseFloat(string)]. *)
Definition parseFloat (s : string) : Number :=
  match trim_start s with
  | String "+" r => unsigned_literal false r
  | String "-" r => unsigned_literal true r
  | t => unsigned_literal false t
  end.

(** *** Number to string *)

(** Decimal digits of a natural number, most significant first. *)
Definition dec (n : N) : string :=
  NilZero.string_of_uint (N.to_uint n).

Definition zeros (n : Z) : string :=
  string_of_list_ascii (repeat "0"%char (Z.to_nat n)).

(** The exact value of a positive finite Number times [10^t], as a
    fraction of two positive integers. *)
Definition scaled (m : positive) (e t : Z) : Z * Z :=
  (Z.pos m * 2 ^ Z.max e 0 * 10 ^ Z.max t 0,
   2 ^ Z.max (- e) 0 * 10 ^ Z.max (- t) 0).

Definition scaled_floor (m : positive) (e t : Z) : Z :=
  let '(num, den) := scaled m e t in num / den.

(** The integer [n] with [10^(n-1) <= m * 2^e < 10^n]; for a value
    below one it is found by scaling up, which takes at most 324 steps
    for a binary64 value. *)
Fixpoint small_exponent (fuel : nat) (m : positive) (e t : Z) : Z :=
  match fuel with
  | O => 1 - t
  | S fuel' =>
      if 1 <=? scaled_floor m e t then 1 - t
      else small_exponent fuel' m e (t + 1)
  end.

Definition decimal_exponent (m : positive) (e : Z) : Z :=
  let ip := scaled_floor m e 0 in
  if 1 <=? ip then Z.of_nat (String.length (dec (Z.to_N ip)))
  else small_exponent 400 m e 1.

(** One candidate digit string for [Number::toString]: the integer [s]
    read with [k] digits and decimal exponent [n], kept when it has
    exactly [k] digits and denotes the Number [x]; [c] is the candidate
    in units of [10^(n0 - k)]. *)
Record candidate := { cand_s : Z; cand_n : Z; cand_c : Z }.

Definition cand_ok (x : Number) (k : Z) (c : candidate) : bool :=
  (10 ^ (k - 1) <=? cand_s c) && (cand_s c <? 10 ^ k)
  && SFeqb (of_decimal false (Z.to_N (cand_s c)) (cand_n c - k)) x.

(** [a] is at least as good as [b]: nearer to [num/den], the even one on
    a tie. *)
Definition nearer (num den : Z) (a b : candidate) : bool :=
  let da := Z.abs (cand_c a * den - num) in
  let db := Z.abs (cand_c b * den - num) in
  (da <? db) || ((da =? db) && Z.even (cand_s a)).

Definition best (num den : Z) (cs : list candidate) : option candidate :=
  fold_left (fun acc c =>
               match acc with
               | None => Some c
               | Some a => if nearer num den a c then Some a else Some c
               end) cs None.

Definition candidates (x : Number) (m : positive) (e n0 k : Z)
  : option candidate :=
  let '(num, den) := scaled m e (k - n0) in
  let lo := num / den in
  best num den
    (filter (fun c => cand_ok x k c)
       [ {| cand_s := lo; cand_n := n0; cand_c := lo |};
         {| cand_s := lo + 1; cand_n := n0; cand_c := lo + 1 |};
         {| cand_s := 10 ^ (k - 1); cand_n := n0 + 1; cand_c := 10 ^ k |} ]).

(** The least [k], from [k] upwards, that admits a candidate. *)
Fixpoint shortest (fuel : nat) (x : Number) (m : positive) (e n0 k : Z)
  : option (candidate * Z) :=
  match fuel with
  | O => None
  | S fuel' =>
      match candidates x m e n0 k with
      | Some c => Some (c, k)
      | None => shortest fuel' x m e n0 (k + 1)
      end
  end.

Definition sub (s : string) (from len : Z) : string :=
  String.substring (Z.to_nat from) (Z.to_nat len) s.

(** Steps 6 to 10 of [Number::toString]: the layout of the digits [ds]
    ([k] of them) for the decimal exponent [n]. *)
Definition layout (ds : string) (k n : Z) : string :=
  if (k <=? n) && (n <=? 21) then ds +:+ zeros (n - k)
  else if (0 <? n) && (n <=? 21) then sub ds 0 n +:+ "." +:+ sub ds n (k - n)
  else if (-6 <? n) && (n <=? 0) then "0." +:+ zeros (- n) +:+ ds
  else
    let e := n - 1 in
    let sign := if e <? 0 then "-" else "+" in
    if k =? 1 then ds +:+ "e" +:+ sign +:+ dec (Z.abs_N e)
    else sub ds 0 1 +:+ "." +:+ sub ds 1 (k - 1)
         +:+ "e" +:+ sign +:+ dec (Z.abs_N e).

(** [Number.prototype.toString()] in radix 10: the digits are those of
    the least [k] for which some [k]-digit integer [s] and exponent [n]
    satisfy "the Number nearest to [s * 10^(n-k)] is [x]", the nearest
    such [s] when there are several.  Seventeen digits always suffice
    for a binary64 value, so the search does not run out. *)
Definition toString (x : Number) : string :=
  match x with
  | S754_nan => "NaN"
  | S754_zero _ => "0"
  | S754_infinity s => if s then "-Infinity" else "Infinity"
  | S754_finite s m e =>
      match shortest 17 (S754_finite false m e) m e (decimal_exponent m e) 1 with
      | Some (c, k) =>
          (if s then "-" else "") +:+ layout (dec (Z.to_N (cand_s c))) k (cand_n c)
      | None => "NaN"
      end
  end.

(** [Number.prototype.toFixed(f)] for [0 <= f <= 100]. *)
Definition toFixed (x : Number) (f : Z) : string :=
  match x with
  | S754_finite s m e =>
      if 1 <=? scaled_floor m e (-21) then toString x
      else
        let '(num, den) := scaled m e f in
        let n := (2 * num + den) / (2 * den) in
        let ds := dec (Z.to_N n) in
        let k := Z.of_nat (String.length ds) in
        let body :=
          if f =? 0 then ds
          else
            let ds' := if k <=? f then zeros (f + 1 - k) +:+ ds else ds in
            let k' := if k <=? f then f + 1 else k in
            sub ds' 0 (k' - f) +:+ "." +:+ sub ds' (k' - f) f in
        (if s then "-" else "") +:+ body
  | S754_zero _ => if f =? 0 then "0" else "0." +:+ zeros f
  | _ => toString x
  end.

(** *** Truthiness *)

(** [s || d] for an optional string: [undefined], [null] and the empty
    string are falsy. *)
Definition truthy_str (o : option string) : bool :=
  match o with
  | Some (String _ _) => true
  | _ => false
  end.

Definition or_str (o : option string) (d : string) : string :=
  match o with
  | Some (String c r) => String c r
  | _ => d
  end.

(** [s || null]. *)
Definition or_null (o : option string) : option string :=
  if truthy_str o then o else None.

(** Truthiness of an integral Number. *)
Definition truthy_int (z : Z) : bool := negb (z =? 0).

End JS.

(* ===================================================================== *)
(** ** Calls that may throw *)
(* ===================================================================== *)

(** An [async] method is awaited by each of its callers, so a call is a
    state transformer that either returns a value or throws. *)
Inductive Outcome (A : Type) : Type :=
  | Returned (a : A)
  | Thrown (msg : string).
Arguments Returned {A} a.
Arguments Thrown {A} msg.

Definition M (S A : Type) : Type := S -> Outcome A * S.

Definition ret {S A} (a : A) : M S A := fun st => (Returned a, st).

(** [new Date()]: the clock reading is an argument of every operation
    that takes one. *)
Definition Date := Z.

(* ===================================================================== *)
(** ** server/storage.ts: MemStorage *)
(* ===================================================================== *)

Module Storage.

(** Rows of shared/schema.ts ([$inferSelect]): a nullable column is an
    [option]. *)
Record User := {
  u_id : Z;
  u_username : string;
  u_password : string;
  u_derivAccountId : option string;
  u_balance : option string;
  u_createdAt : option Date;
}.

Record Market := {
  m_id : Z;
  m_symbol : string;
  m_name : string;
  m_category : string;
  m_currentPrice : option string;
  m_change : option string;
  m_changePercent : option string;
  m_high : option string;
  m_low : option string;
  m_volume : option string;
  m_isActive : option bool;
  m_lastUpdate : option Date;
}.

Record Trade := {
  t_id : Z;
  t_userId : Z;
  t_symbol : string;
  t_tradeType : string;
  t_contractType : string;
  t_stake : string;
  t_entryPrice : option string;
  t_exitPrice : option string;
  t_duration : Z;
  t_durationType : string;
  t_status : string;
  t_payout : option string;
  t_profit : option string;
  t_derivTradeId : option string;
  t_createdAt : option Date;
  t_closedAt : option Date;
}.

(** [InsertUser], [InsertMarket], [InsertTrade]: a column with a default
    or a nullable column may be absent ([None]). *)
Record InsertUser := {
  iu_username : string;
  iu_password : string;
  iu_derivAccountId : option string;
}.

Record InsertMarket := {
  im_symbol : string;
  im_name : string;
  im_category : string;
  im_currentPrice : option string;
  im_change : option string;
  im_changePercent : option string;
  im_high : option string;
  im_low : option string;
  im_volume : option string;
  im_isActive : option (option bool);   (* absent, or a boolean or null *)
}.

Record InsertTrade := {
  it_userId : Z;
  it_symbol : string;
  it_tradeType : string;
  it_contractType : string;
  it_stake : string;
  it_entryPrice : option string;
  it_exitPrice : option string;
  it_duration : Z;
  it_durationType : string;
  it_status : option string;
  it_payout : option string;
  it_profit : option string;
  it_derivTradeId : option string;
}.

(** [Partial<Market>] and [Partial<Trade>]: each property is absent
    ([None]) or present with a value of the column's type. *)
Record MarketPatch := {
  mp_id : option Z;
  mp_symbol : option string;
  mp_name : option string;
  mp_category : option string;
  mp_currentPrice : option (option string);
  mp_change : option (option string);
  mp_changePercent : option (option string);
  mp_high : option (option string);
  mp_low : option (option string);
  mp_volume : option (option string);
  mp_isActive : option (option bool);
  mp_lastUpdate : option (option Date);
}.

Record TradePatch := {
  tp_id : option Z;
  tp_userId : option Z;
  tp_symbol : option string;
  tp_tradeType : option string;
  tp_contractType : option string;
  tp_stake : option string;
  tp_entryPrice : option (option string);
  tp_exitPrice : option (option string);
  tp_duration : option Z;
  tp_durationType : option string;
  tp_status : option string;
  tp_payout : option (option string);
  tp_profit : option (option string);
  tp_derivTradeId : option (option string);
  tp_createdAt : option (option Date);
  tp_closedAt : option (option Date);
}.

Definition empty_trade_patch : TradePatch :=
  {| tp_id := None; tp_userId := None; tp_symbol := None;
     tp_tradeType := None; tp_contractType := None; tp_stake := None;
     tp_entryPrice := None; tp_exitPrice := None; tp_duration := None;
     tp_durationType := None; tp_status := None; tp_payout := None;
     tp_profit := None; tp_derivTradeId := None; tp_createdAt := None;
     tp_closedAt := None |}.

Definition empty_market_patch : MarketPatch :=
  {| mp_id := None; mp_symbol := None; mp_name := None; mp_category := None;
     mp_currentPrice := None; mp_change := None; mp_changePercent := None;
     mp_high := None; mp_low := None; mp_volume := None; mp_isActive := None;
     mp_lastUpdate := None |}.

(** One property of an object spread [{ ...old, ...patch }]. *)
Definition spread {A} (old : A) (p : option A) : A :=
  match p with
  | Some v => v
  | None => old
  end.

Record MemStorage := {
  users : gmap Z User;
  markets : gmap string Market;
  trades : gmap Z Trade;
  currentUserId : Z;
  currentTradeId : Z;
}.

Definition set_users (f : gmap Z User -> gmap Z User) (st : MemStorage) :=
  {| users := f (users st); markets := markets st; trades := trades st;
     currentUserId := currentUserId st; currentTradeId := currentTradeId st |}.
Definition set_markets (f : gmap string Market -> gmap string Market)
    (st : MemStorage) :=
  {| users := users st; markets := f (markets st); trades := trades st;
     currentUserId := currentUserId st; currentTradeId := currentTradeId st |}.
Definition set_trades (f : gmap Z Trade -> gmap Z Trade) (st : MemStorage) :=
  {| users := users st; markets := markets st; trades := f (trades st);
     currentUserId := currentUserId st; currentTradeId := currentTradeId st |}.

Definition demoMarkets (now : Date) : list Market :=
  [ {| m_id := 1; m_symbol := "EUR/USD"; m_name := "Euro vs US Dollar";
       m_category := "forex"; m_currentPrice := Some "1.08547";
       m_change := Some "0.0023"; m_changePercent := Some "0.21";
       m_high := Some "1.08721"; m_low := Some "1.08324";
       m_volume := Some "2.4M"; m_isActive := Some true;
       m_lastUpdate := Some now |};
    {| m_id := 2; m_symbol := "GBP/USD"; m_name := "British Pound vs US Dollar";
       m_category := "forex"; m_currentPrice := Some "1.27845";
       m_change := Some "-0.0012"; m_changePercent := Some "-0.09";
       m_high := Some "1.28021"; m_low := Some "1.27654";
       m_volume := Some "1.8M"; m_isActive := Some true;
       m_lastUpdate := Some now |};
    {| m_id := 3; m_symbol := "BTC/USD"; m_name := "Bitcoin vs US Dollar";
       m_category := "crypto"; m_currentPrice := Some "43127.50";
       m_change := Some "847.20"; m_changePercent := Some "2.01";
       m_high := Some "43850.00"; m_low := Some "42100.00";
       m_volume := Some "24.5K"; m_isActive := Some true;
       m_lastUpdate := Some now |} ].

(** The constructor, [initializeMarkets] included. *)
Definition new (now : Date) : MemStorage :=
  {| users := ∅;
     markets := foldl (fun ms mk => <[m_symbol mk := mk]> ms) ∅ (demoMarkets now);
     trades := ∅;
     currentUserId := 1;
     currentTradeId := 1 |}.

(** *** User operations *)

Definition getUser (id : Z) : M MemStorage (option User) :=
  fun st => (Returned (users st !! id), st).

Definition createUser (now : Date) (insertUser : InsertUser)
  : M MemStorage User :=
  fun st =>
    let id := currentUserId st in
    let user :=
      {| u_id := id;
         u_username := iu_username insertUser;
         u_password := iu_password insertUser;
         u_derivAccountId := JS.or_null (iu_derivAccountId insertUser);
         u_balance := Some "10000.00";
         u_createdAt := Some now |} in
    (Returned user,
     {| users := <[id := user]> (users st); markets := markets st;
        trades := trades st; currentUserId := id + 1;
        currentTradeId := currentTradeId st |}).

Definition updateUserBalance (userId : Z) (newBalance : string)
  : M MemStorage unit :=
  fun st =>
    match users st !! userId with
    | Some user =>
        let user' :=
          {| u_id := u_id user; u_username := u_username user;
             u_password := u_password user;
             u_derivAccountId := u_derivAccountId user;
             u_balance := Some newBalance;
             u_createdAt := u_createdAt user |} in
        (Returned tt, set_users (insert userId user') st)
    | None => (Returned tt, st)
    end.

(** *** Market operations *)

Definition getMarket (symbol : string) : M MemStorage (option Market) :=
  fun st => (Returned (markets st !! symbol), st).

(** [{ ...market, ...updates, lastUpdate: new Date() }] *)
Definition patch_market (now : Date) (market : Market) (updates : MarketPatch)
  : Market :=
  {| m_id := spread (m_id market) (mp_id updates);
     m_symbol := spread (m_symbol market) (mp_symbol updates);
     m_name := spread (m_name market) (mp_name updates);
     m_category := spread (m_category market) (mp_category updates);
     m_currentPrice := spread (m_currentPrice market) (mp_currentPrice updates);
     m_change := spread (m_change market) (mp_change updates);
     m_changePercent := spread (m_changePercent market) (mp_changePercent updates);
     m_high := spread (m_high market) (mp_high updates);
     m_low := spread (m_low market) (mp_low updates);
     m_volume := spread (m_volume market) (mp_volume updates);
     m_isActive := spread (m_isActive market) (mp_isActive updates);
     m_lastUpdate := Some now |}.

Definition updateMarket (now : Date) (symbol : string) (updates : MarketPatch)
  : M MemStorage unit :=
  fun st =>
    match markets st !! symbol with
    | Some market =>
        let updatedMarket := patch_market now market updates in
        (Returned tt, set_markets (insert symbol updatedMarket) st)
    | None => (Returned tt, st)
    end.

Definition createMarket (now : Date) (insertMarket : InsertMarket)
  : M MemStorage Market :=
  fun st =>
    let id := Z.of_nat (size (markets st)) + 1 in
    let market :=
      {| m_id := id;
         m_symbol := im_symbol insertMarket;
         m_name := im_name insertMarket;
         m_category := im_category insertMarket;
         m_currentPrice := JS.or_null (im_currentPrice insertMarket);
         m_change := JS.or_null (im_change insertMarket);
         m_changePercent := JS.or_null (im_changePercent insertMarket);
         m_high := JS.or_null (im_high insertMarket);
         m_low := JS.or_null (im_low insertMarket);
         m_volume := JS.or_null (im_volume insertMarket);
         m_isActive :=
           match im_isActive insertMarket with
           | Some v => v
           | None => Some true
           end;
         m_lastUpdate := Some now |} in
    (Returned market, set_markets (insert (m_symbol market) market) st).

(** *** Trade operations *)

Definition createTrade (now : Date) (insertTrade : InsertTrade)
  : M MemStorage Trade :=
  fun st =>
    let id := currentTradeId st in
    let trade :=
      {| t_id := id;
         t_userId := it_userId insertTrade;
         t_symbol := it_symbol insertTrade;
         t_tradeType := it_tradeType insertTrade;
         t_contractType := it_contractType insertTrade;
         t_stake := it_stake insertTrade;
         t_entryPrice := JS.or_null (it_entryPrice insertTrade);
         t_exitPrice := None;
         t_duration := it_duration insertTrade;
         t_durationType := it_durationType insertTrade;
         t_status := JS.or_str (it_status insertTrade) "open";
         t_payout := None;
         t_profit := None;
         t_derivTradeId := JS.or_null (it_derivTradeId insertTrade);
         t_createdAt := Some now;
         t_closedAt := None |} in
    (Returned trade,
     {| users := users st; markets := markets st;
        trades := <[id := trade]> (trades st);
        currentUserId := currentUserId st; currentTradeId := id + 1 |}).

(** [{ ...trade, ...updates }] *)
Definition patch_trade (trade : Trade) (updates : TradePatch) : Trade :=
  {| t_id := spread (t_id trade) (tp_id updates);
     t_userId := spread (t_userId trade) (tp_userId updates);
     t_symbol := spread (t_symbol trade) (tp_symbol updates);
     t_tradeType := spread (t_tradeType trade) (tp_tradeType updates);
     t_contractType := spread (t_contractType trade) (tp_contractType updates);
     t_stake := spread (t_stake trade) (tp_stake updates);
     t_entryPrice := spread (t_entryPrice trade) (tp_entryPrice updates);
     t_exitPrice := spread (t_exitPrice trade) (tp_exitPrice updates);
     t_duration := spread (t_duration trade) (tp_duration updates);
     t_durationType := spread (t_durationType trade) (tp_durationType updates);
     t_status := spread (t_status trade) (tp_status updates);
     t_payout := spread (t_payout trade) (tp_payout updates);
     t_profit := spread (t_profit trade) (tp_profit updates);
     t_derivTradeId := spread (t_derivTradeId trade) (tp_derivTradeId updates);
     t_createdAt := spread (t_createdAt trade) (tp_createdAt updates);
     t_closedAt := spread (t_closedAt trade) (tp_closedAt updates) |}.

Definition updateTrade (tradeId : Z) (updates : TradePatch)
  : M MemStorage unit :=
  fun st =>
    match trades st !! tradeId with
    | Some trade =>
        let updatedTrade := patch_trade trade updates in
        (Returned tt, set_trades (insert tradeId updatedTrade) st)
    | None => (Returned tt, st)
    end.

(** [{ ...trade, exitPrice, payout, profit, status: ..., closedAt: new Date() }] *)
Definition close_trade (now : Date) (trade : Trade)
    (exitPrice payout profit : string) : Trade :=
  {| t_id := t_id trade;
     t_userId := t_userId trade;
     t_symbol := t_symbol trade;
     t_tradeType := t_tradeType trade;
     t_contractType := t_contractType trade;
     t_stake := t_stake trade;
     t_entryPrice := t_entryPrice trade;
     t_exitPrice := Some exitPrice;
     t_duration := t_duration trade;
     t_durationType := t_durationType trade;
     t_status :=
       if JS.gt (JS.parseFloat profit) JS.pos_zero then "won" else "lost";
     t_payout := Some payout;
     t_profit := Some profit;
     t_derivTradeId := t_derivTradeId trade;
     t_createdAt := t_createdAt trade;
     t_closedAt := Some now |}.

Definition closeTrade (now : Date) (tradeId : Z)
    (exitPrice payout profit : string) : M MemStorage unit :=
  fun st =>
    match trades st !! tradeId with
    | Some trade =>
        let updatedTrade := close_trade now trade exitPrice payout profit in
        (Returned tt, set_trades (insert tradeId updatedTrade) st)
    | None => (Returned tt, st)
    end.

(** The stored trade, as the query methods would return it. *)
Definition getTrade (st : MemStorage) (tradeId : Z) : option Trade :=
  trades st !! tradeId.

(** The mutating calls of [IStorage], as data. *)
Inductive Call :=
  | call_createUser (now : Date) (insertUser : InsertUser)
  | call_updateUserBalance (userId : Z) (newBalance : string)
  | call_updateMarket (now : Date) (symbol : string) (updates : MarketPatch)
  | call_createMarket (now : Date) (insertMarket : InsertMarket)
  | call_createTrade (now : Date) (insertTrade : InsertTrade)
  | call_updateTrade (tradeId : Z) (updates : TradePatch)
  | call_closeTrade (now : Date) (tradeId : Z) (exitPrice payout profit : string).

Definition perform (c : Call) (st : MemStorage) : MemStorage :=
  match c with
  | call_createUser now insertUser => (createUser now insertUser st).2
  | call_updateUserBalance userId newBalance =>
      (updateUserBalance userId newBalance st).2
  | call_updateMarket now symbol updates => (updateMarket now symbol updates st).2
  | call_createMarket now insertMarket => (createMarket now insertMarket st).2
  | call_createTrade now insertTrade => (createTrade now insertTrade st).2
  | call_updateTrade tradeId updates => (updateTrade tradeId updates st).2
  | call_closeTrade now tradeId exitPrice payout profit =>
      (closeTrade now tradeId exitPrice payout profit st).2
  end.

End Storage.

(* ===================================================================== *)
(** ** server/deriv-api.ts: DerivAPI *)
(* ===================================================================== *)

Module Deriv.

(** [WebSocket.readyState] *)
Inductive ReadyState := CONNECTING | OPEN | CLOSING | CLOSED.

Global Instance ReadyState_eq_dec : EqDecision ReadyState :=
  ltac:(solve_decision).

(** Outbound envelopes, before [JSON.stringify]. *)
Inductive Request :=
  | Authorize (authorize : string)
  | ActiveSymbols
  | Ticks (ticks : string) (req_id : Z)
  | Forget (forget : Z)
  | Buy (price amount : JS.Number) (basis contract_type currency : string)
        (duration : Z) (duration_unit symbol : string).

(** Inbound envelopes, after [JSON.parse]. *)
Record Tick := {
  tick_symbol : string;
  tick_quote : JS.Number;
  tick_epoch : Z;
}.

Record Frame := {
  msg_type : option string;
  frame_error : option string;
  frame_tick : option Tick;
  frame_balance : option JS.Number;   (* response.authorize.balance *)
  frame_buy : option Z;               (* response.buy.contract_id *)
}.

(** What the connector hands to [EventEmitter.emit] and [emit] returns
    from.  The event ['error'] is not among them: see [emit_error]. *)
Inductive Event :=
  | connected
  | disconnected
  | tick (response : Frame)
  | authorized (response : Frame)
  | symbols (response : Frame)
  | trade_result (response : Frame)
  | api_error (error : string)
  | max_reconnect_reached.

(** Lines written to the console. *)
Inductive LogLine :=
  | log_connected
  | log_disconnected
  | log_reconnect (delay attempt : Z)
  | log_max_reached
  | log_not_connected
  | log_ws_error
  | log_api_error (error : string).

(** A transport: one [WebSocket] object constructed by [connect].
    Besides [readyState] and what has been sent on it, the record keeps
    what the ws package knows of the object's past: whether the
    handshake completed and ['open'] was delivered, and whether
    ['error'] has been delivered (ws delivers it once at most). *)
Record Transport := {
  readyState : ReadyState;
  outbox : list Request;
  opened : bool;
  errorEmitted : bool;
}.

(** The connector.  [ws] is the connection handle, an index into
    [transports], the list of every transport this connector has
    constructed (their [open]/[close]/[message]/[error] handlers all
    point back at the connector).  [timers] are the pending
    [setTimeout(() => this.connect(), delay)] calls.  [subscriptions] is
    declared as [Map<string, string>] and holds the numbers that
    [generateRequestId] returns. *)
Record DerivAPI := {
  apiToken : option string;
  ws : option nat;
  reconnectAttempts : Z;
  isConnected : bool;
  subscriptions : gmap string Z;
  transports : list Transport;
  timers : list Z;
  emitted : list Event;
  console : list LogLine;
}.

Definition maxReconnectAttempts : Z := 5.
Definition reconnectDelay : Z := 1000.

Definition new (token : option string) : DerivAPI :=
  {| apiToken := token; ws := None; reconnectAttempts := 0;
     isConnected := false; subscriptions := ∅; transports := [];
     timers := []; emitted := []; console := [] |}.

(** Field updates. *)
Definition with_ws (v : option nat) (a : DerivAPI) : DerivAPI :=
  {| apiToken := apiToken a; ws := v; reconnectAttempts := reconnectAttempts a;
     isConnected := isConnected a; subscriptions := subscriptions a;
     transports := transports a; timers := timers a; emitted := emitted a;
     console := console a |}.
Definition with_reconnectAttempts (v : Z) (a : DerivAPI) : DerivAPI :=
  {| apiToken := apiToken a; ws := ws a; reconnectAttempts := v;
     isConnected := isConnected a; subscriptions := subscriptions a;
     transports := transports a; timers := timers a; emitted := emitted a;
     console := console a |}.
Definition with_isConnected (v : bool) (a : DerivAPI) : DerivAPI :=
  {| apiToken := apiToken a; ws := ws a; reconnectAttempts := reconnectAttempts a;
     isConnected := v; subscriptions := subscriptions a;
     transports := transports a; timers := timers a; emitted := emitted a;
     console := console a |}.
Definition with_subscriptions (v : gmap string Z) (a : DerivAPI) : DerivAPI :=
  {| apiToken := apiToken a; ws := ws a; reconnectAttempts := reconnectAttempts a;
     isConnected := isConnected a; subscriptions := v;
     transports := transports a; timers := timers a; emitted := emitted a;
     console := console a |}.
Definition with_transports (v : list Transport) (a : DerivAPI) : DerivAPI :=
  {| apiToken := apiToken a; ws := ws a; reconnectAttempts := reconnectAttempts a;
     isConnected := isConnected a; subscriptions := subscriptions a;
     transports := v; timers := timers a; emitted := emitted a;
     console := console a |}.
Definition with_timers (v : list Z) (a : DerivAPI) : DerivAPI :=
  {| apiToken := apiToken a; ws := ws a; reconnectAttempts := reconnectAttempts a;
     isConnected := isConnected a; subscriptions := subscriptions a;
     transports := transports a; timers := v; emitted := emitted a;
     console := console a |}.

(** [this.emit(ev)] for an event other than ['error']: the event is
    recorded.  What its listeners do is the business of the owner of the
    connector ([Manager], [Routes]). *)
Definition emit (ev : Event) (a : DerivAPI) : DerivAPI :=
  {| apiToken := apiToken a; ws := ws a; reconnectAttempts := reconnectAttempts a;
     isConnected := isConnected a; subscriptions := subscriptions a;
     transports := transports a; timers := timers a;
     emitted := emitted a ++ [ev]; console := console a |}.

(** [this.emit('error', error)].  An [EventEmitter] with no listener for
    ['error'] throws the error it is asked to emit.  The owners of a
    connector listen for ['connected'], ['disconnected'], ['authorized']
    and ['trade_result'] (client-manager.ts) and for ['connected'],
    ['tick'] and ['symbols'] (routes.ts); none registers a listener for
    ['error'], so the call throws. *)
Definition unhandled_error : string := "Unhandled 'error' event".

Definition emit_error : M DerivAPI unit :=
  fun a => (Thrown unhandled_error, a).

Definition log (l : LogLine) (a : DerivAPI) : DerivAPI :=
  {| apiToken := apiToken a; ws := ws a; reconnectAttempts := reconnectAttempts a;
     isConnected := isConnected a; subscriptions := subscriptions a;
     transports := transports a; timers := timers a;
     emitted := emitted a; console := console a ++ [l] |}.

Definition set_readyState (i : nat) (r : ReadyState) (a : DerivAPI) : DerivAPI :=
  with_transports
    (alter (fun t => {| readyState := r; outbox := outbox t;
                        opened := opened t; errorEmitted := errorEmitted t |})
       i (transports a)) a.

Definition set_opened (i : nat) (a : DerivAPI) : DerivAPI :=
  with_transports
    (alter (fun t => {| readyState := readyState t; outbox := outbox t;
                        opened := true; errorEmitted := errorEmitted t |})
       i (transports a)) a.

Definition set_errorEmitted (i : nat) (a : DerivAPI) : DerivAPI :=
  with_transports
    (alter (fun t => {| readyState := readyState t; outbox := outbox t;
                        opened := opened t; errorEmitted := true |})
       i (transports a)) a.

Definition state_of (a : DerivAPI) (i : nat) : option ReadyState :=
  readyState <$> transports a !! i.

(** [send]: the envelope goes out on the current handle when that
    transport is open, and is dropped with a console line otherwise. *)
Definition send (data : Request) (a : DerivAPI) : DerivAPI :=
  match ws a with
  | Some i =>
      match transports a !! i with
      | Some t =>
          if decide (readyState t = OPEN)
          then with_transports
                 (<[i := {| readyState := OPEN; outbox := outbox t ++ [data];
                            opened := opened t;
                            errorEmitted := errorEmitted t |}]>
                    (transports a)) a
          else log log_not_connected a
      | None => log log_not_connected a
      end
  | None => log log_not_connected a
  end.

(** [connect]: a new transport is constructed and becomes the handle.
    The address is the constant [wss://ws.binaryws.com/websockets/v3]
    with [app_id=76613], which the constructor accepts, so the [catch]
    branch is not reached. *)
Definition connect (a : DerivAPI) : DerivAPI :=
  with_ws (Some (length (transports a)))
    (with_transports
       (transports a
        ++ [ {| readyState := CONNECTING; outbox := [];
                opened := false; errorEmitted := false |} ]) a).

Definition authorize (a : DerivAPI) : DerivAPI :=
  match apiToken a with
  | Some (String c r) => send (Authorize (String c r)) a
  | _ => a
  end.

Definition handleReconnect (a : DerivAPI) : DerivAPI :=
  if reconnectAttempts a <? maxReconnectAttempts then
    let n := reconnectAttempts a + 1 in
    let delay := reconnectDelay * 2 ^ (n - 1) in
    let a1 := with_reconnectAttempts n a in
    let a2 := log (log_reconnect delay n) a1 in
    with_timers (timers a2 ++ [delay]) a2
  else
    emit max_reconnect_reached (log log_max_reached a).

Definition handleMessage (response : Frame) (a : DerivAPI) : DerivAPI :=
  if decide (msg_type response = Some "tick") then emit (tick response) a
  else if decide (msg_type response = Some "authorize")
       then emit (authorized response) a
  else if decide (msg_type response = Some "active_symbols")
       then emit (symbols response) a
  else if decide (msg_type response = Some "buy")
       then emit (trade_result response) a
  else match frame_error response with
       | Some e => emit (api_error e) (log (log_api_error e) a)
       | None => a
       end.

(** The handlers [connect] attaches to the transport it constructs.
    [listeners] is what the subscribers of ['connected'] do to the
    connector when the event is emitted. *)
Definition on_open (listeners : DerivAPI -> DerivAPI) (i : nat) (a : DerivAPI)
  : DerivAPI :=
  let a1 := set_opened i (set_readyState i OPEN a) in
  let a2 := log log_connected a1 in
  let a3 := with_isConnected true a2 in
  let a4 := with_reconnectAttempts 0 a3 in
  let a5 := listeners (emit connected a4) in
  if JS.truthy_str (apiToken a5) then authorize a5 else a5.

Definition on_message (response : Frame) (a : DerivAPI) : DerivAPI :=
  handleMessage response a.

Definition on_close (i : nat) (a : DerivAPI) : DerivAPI :=
  let a1 := set_readyState i CLOSED a in
  let a2 := log log_disconnected a1 in
  let a3 := with_isConnected false a2 in
  let a4 := emit disconnected a3 in
  handleReconnect a4.

(** The timer callback: [() => { this.connect(); }]. *)
Definition fire_timer (j : nat) (a : DerivAPI) : DerivAPI :=
  match timers a !! j with
  | Some _ => connect (with_timers (delete j (timers a)) a)
  | None => a
  end.

Definition getActiveSymbols (a : DerivAPI) : DerivAPI := send ActiveSymbols a.

(** [Math.floor(Math.random() * 1000000000)], for the value [u] that
    [Math.random()] returns. *)
Definition generateRequestId (u : JS.Number) : Z :=
  JS.floorZ (JS.mul u (JS.of_Z 1000000000)).

Definition subscribeToTicks (u : JS.Number) (symbol : string) (a : DerivAPI)
  : DerivAPI :=
  let reqId := generateRequestId u in
  let a1 := with_subscriptions (<[symbol := reqId]> (subscriptions a)) a in
  send (Ticks symbol reqId) a1.

Definition unsubscribeFromTicks (symbol : string) (a : DerivAPI) : DerivAPI :=
  match subscriptions a !! symbol with
  | Some reqId =>
      if JS.truthy_int reqId then
        let a1 := send (Forget reqId) a in
        with_subscriptions (delete symbol (subscriptions a1)) a1
      else a
  | None => a
  end.

Record TradeOptions := {
  o_symbol : string;
  o_tradeType : string;
  o_amount : JS.Number;
  o_duration : Z;
  o_durationType : string;
  o_basis : string;
}.

Definition token_required : string := "API token required for trading".

Definition placeTrade (options : TradeOptions) : M DerivAPI unit :=
  fun a =>
    if negb (JS.truthy_str (apiToken a)) then (Thrown token_required, a)
    else
      let contractType :=
        if decide (o_tradeType options = "CALL") then "CALLE" else "PUTE" in
      let request :=
        Buy (o_amount options) (o_amount options) (o_basis options)
            contractType "USD" (o_duration options)
            (o_durationType options) (o_symbol options) in
      (Returned tt, send request a).

(** [ws.close()] as the ws package implements it: a transport that is
    connecting or open starts closing, and the call returns; a transport
    that is closing or closed is left alone.  What the runtime delivers
    afterwards is said by [enabled] below. *)
Definition ws_close (i : nat) (a : DerivAPI) : DerivAPI :=
  match state_of a i with
  | Some CONNECTING | Some OPEN => set_readyState i CLOSING a
  | _ => a
  end.

(** The handler of ['error'].  By the time ws delivers ['error'] it has
    moved the transport to the closing state (after a refused or an
    aborted handshake, and after a protocol error on an open transport
    alike).  The handler writes to the console and emits ['error'] on
    the connector, which throws: the exception leaves the handler. *)
Definition on_error (i : nat) : M DerivAPI unit :=
  fun a =>
    let a1 := set_errorEmitted i (ws_close i a) in
    let a2 := log log_ws_error a1 in
    emit_error a2.

Definition disconnect (a : DerivAPI) : DerivAPI :=
  match ws a with
  | Some i => with_ws None (ws_close i a)
  | None => a
  end.

(** *** The connector as a transition system *)

(** Calls made by the owner of the connector, and events delivered by
    the runtime to the handlers the connector registered. *)
Inductive Action :=
  | call_connect
  | call_disconnect
  | call_subscribeToTicks (u : JS.Number) (symbol : string)
  | call_unsubscribeFromTicks (symbol : string)
  | call_getActiveSymbols
  | ws_open (i : nat)
  | ws_message (i : nat) (response : Frame)
  | ws_error (i : nat)
  | ws_closed (i : nat)
  | timeout (j : nat).

(** Whether transport [i] exists and [p] holds of it. *)
Definition transport_is (p : Transport -> bool) (a : DerivAPI) (i : nat) : bool :=
  match transports a !! i with
  | Some t => p t
  | None => false
  end.

(** What the runtime can deliver.
    - ['open'] goes to a connecting transport only.
    - A frame is delivered on a transport that has opened and is open or
      closing (the ['message'] handler itself tests nothing), and no more
      once ['error'] has been delivered.
    - ['error'] is delivered once at most, to a transport that is not
      closed.
    - ['close'] is delivered to a transport that has opened and is not
      closed yet.  A transport that never opened, because the handshake
      was refused or because [close()] was called on it while it was
      connecting, ends in ws's error path, which emits ['error'] first
      and ['close'] only after the listeners of ['error'] have returned.
      The connector's listener throws ([on_error]), so that ['close'] is
      never emitted.
    - Only pending timers fire. *)
Definition enabled (a : DerivAPI) (act : Action) : bool :=
  match act with
  | ws_open i => bool_decide (state_of a i = Some CONNECTING)
  | ws_message i _ =>
      transport_is
        (fun t => opened t && negb (errorEmitted t)
                  && (bool_decide (readyState t = OPEN)
                      || bool_decide (readyState t = CLOSING))) a i
  | ws_error i =>
      transport_is
        (fun t => negb (errorEmitted t)
                  && negb (bool_decide (readyState t = CLOSED))) a i
  | ws_closed i =>
      transport_is
        (fun t => opened t && negb (bool_decide (readyState t = CLOSED))) a i
  | timeout j => bool_decide (is_Some (timers a !! j))
  | _ => true
  end.

(** One step of the connector.  The exception that the handler of
    ['error'] throws is caught by nobody: it leaves ws's error path, and
    Node ends the process on it unless the host handles uncaught
    exceptions (nothing in these sources does).  The step keeps the
    state the handler leaves behind, so a run that goes on after a
    [ws_error] is that of a host that survives; every state the program
    reaches before it ends is the state of a prefix of the run. *)
Definition step (a : DerivAPI) (act : Action) : DerivAPI :=
  if enabled a act then
    match act with
    | call_connect => connect a
    | call_disconnect => disconnect a
    | call_subscribeToTicks u symbol => subscribeToTicks u symbol a
    | call_unsubscribeFromTicks symbol => unsubscribeFromTicks symbol a
    | call_getActiveSymbols => getActiveSymbols a
    | ws_open i => on_open id i a
    | ws_message _ response => on_message response a
    | ws_error i => (on_error i a).2
    | ws_closed i => on_close i a
    | timeout j => fire_timer j a
    end
  else a.

Definition run (a : DerivAPI) (acts : list Action) : DerivAPI :=
  foldl step a acts.

End Deriv.

(* ===================================================================== *)
(** ** server/client-manager.ts: ClientManager *)
(* ===================================================================== *)

Module Manager.

Record ClientAccount := {
  ca_userId : Z;
  ca_derivAccountId : string;
  ca_apiToken : string;
  ca_balance : string;
  ca_currency : string;
  ca_isActive : bool;
}.

Record TradeRequest := {
  tr_clientId : Z;
  tr_symbol : string;
  tr_tradeType : string;
  tr_amount : JS.Number;
  tr_duration : Z;
  tr_durationType : string;
  tr_contractType : string;
}.

(** A connector object on the heap, with the [userId] that the listeners
    registered by [connectClient] have captured. *)
Record Session := {
  owner : Z;
  api : Deriv.DerivAPI;
}.

(** [clientAPIs] maps a client id to a reference into [heap], the list of
    every connector [connectClient] has constructed. *)
Record ClientManager := {
  heap : list Session;
  clientAPIs : gmap Z nat;
  activeConnections : gmap Z bool;
}.

Definition new : ClientManager :=
  {| heap := []; clientAPIs := ∅; activeConnections := ∅ |}.

Definition not_connected : string := "Client not connected to Deriv API".

(** [connectClient]: nothing on its path throws, so the [catch] branch
    that returns [false] is not reached. *)
Definition connectClient (clientAccount : ClientAccount)
  : M ClientManager bool :=
  fun cm =>
    let derivAPI := Deriv.connect (Deriv.new (Some (ca_apiToken clientAccount))) in
    let ref := length (heap cm) in
    (Returned true,
     {| heap := heap cm ++ [ {| owner := ca_userId clientAccount; api := derivAPI |} ];
        clientAPIs := <[ca_userId clientAccount := ref]> (clientAPIs cm);
        activeConnections := activeConnections cm |}).

Definition update_api (ref : nat) (f : Deriv.DerivAPI -> Deriv.DerivAPI)
    (cm : ClientManager) : ClientManager :=
  {| heap := alter (fun s => {| owner := owner s; api := f (api s) |}) ref (heap cm);
     clientAPIs := clientAPIs cm;
     activeConnections := activeConnections cm |}.

Definition set_active (clientId : Z) (v : bool) (cm : ClientManager)
  : ClientManager :=
  {| heap := heap cm; clientAPIs := clientAPIs cm;
     activeConnections := <[clientId := v]> (activeConnections cm) |}.

Definition disconnectClient (clientId : Z) : M ClientManager unit :=
  fun cm =>
    match clientAPIs cm !! clientId with
    | Some ref =>
        let cm1 := update_api ref Deriv.disconnect cm in
        (Returned tt,
         {| heap := heap cm1;
            clientAPIs := delete clientId (clientAPIs cm1);
            activeConnections := delete clientId (activeConnections cm1) |})
    | None => (Returned tt, cm)
    end.

Definition isClientConnected (cm : ClientManager) (clientId : Z) : bool :=
  match activeConnections cm !! clientId with
  | Some b => b
  | None => false
  end.

(** The listeners [connectClient] registers on a connector. *)
Definition on_connected (ref : nat) (cm : ClientManager) : ClientManager :=
  match heap cm !! ref with
  | Some s => set_active (owner s) true cm
  | None => cm
  end.

Definition on_disconnected (ref : nat) (cm : ClientManager) : ClientManager :=
  match heap cm !! ref with
  | Some s => set_active (owner s) false cm
  | None => cm
  end.

(** [updateClientBalance]: [authData.authorize.balance] must be truthy. *)
Definition updateClientBalance (clientId : Z) (authData : Deriv.Frame)
  : M Storage.MemStorage unit :=
  match Deriv.frame_balance authData with
  | Some b =>
      if (JS.gt b JS.pos_zero || JS.lt b JS.pos_zero)%bool
      then Storage.updateUserBalance clientId (JS.toString b)
      else ret tt
  | None => ret tt
  end.

(** Transport events of the connector at [ref], as the runtime delivers
    them: the connector's own handler runs, and the listeners of the
    events it emits run with it. *)
Definition ws_open (ref i : nat) (cm : ClientManager) : ClientManager :=
  match heap cm !! ref with
  | Some s =>
      if Deriv.enabled (api s) (Deriv.ws_open i)
      then on_connected ref (update_api ref (Deriv.on_open id i) cm)
      else cm
  | None => cm
  end.

Definition ws_closed (ref i : nat) (cm : ClientManager) : ClientManager :=
  match heap cm !! ref with
  | Some s =>
      if Deriv.enabled (api s) (Deriv.ws_closed i)
      then on_disconnected ref (update_api ref (Deriv.on_close i) cm)
      else cm
  | None => cm
  end.

Definition timeout (ref j : nat) (cm : ClientManager) : ClientManager :=
  update_api ref (Deriv.fire_timer j) cm.

Definition durationName (durationType : string) : string :=
  if decide (durationType = "m") then "minutes"
  else if decide (durationType = "h") then "hours" else "days".

(** The state [placeTradeForClient] works on: the manager and the
    module-level [storage]. *)
Definition World : Type := ClientManager * Storage.MemStorage.

Definition placeTradeForClient (now : Date) (tradeRequest : TradeRequest)
  : M World Storage.Trade :=
  fun '(cm, st) =>
    match clientAPIs cm !! tr_clientId tradeRequest with
    | None => (Thrown not_connected, (cm, st))
    | Some ref =>
        if negb (isClientConnected cm (tr_clientId tradeRequest))
        then (Thrown not_connected, (cm, st))
        else
          match heap cm !! ref with
          | None => (Thrown not_connected, (cm, st))
          | Some s =>
              (* try { *)
              match Deriv.placeTrade
                      {| Deriv.o_symbol := tr_symbol tradeRequest;
                         Deriv.o_tradeType := tr_tradeType tradeRequest;
                         Deriv.o_amount := tr_amount tradeRequest;
                         Deriv.o_duration := tr_duration tradeRequest;
                         Deriv.o_durationType := tr_durationType tradeRequest;
                         Deriv.o_basis := "stake" |} (api s) with
              | (Returned _, api') =>
                  let cm' := update_api ref (fun _ => api') cm in
                  match Storage.createTrade now
                          {| Storage.it_userId := tr_clientId tradeRequest;
                             Storage.it_symbol := tr_symbol tradeRequest;
                             Storage.it_tradeType := tr_tradeType tradeRequest;
                             Storage.it_contractType := tr_contractType tradeRequest;
                             Storage.it_stake := JS.toString (tr_amount tradeRequest);
                             Storage.it_entryPrice := None;
                             Storage.it_exitPrice := None;
                             Storage.it_duration := tr_duration tradeRequest;
                             Storage.it_durationType :=
                               durationName (tr_durationType tradeRequest);
                             Storage.it_status := Some "open";
                             Storage.it_payout := None;
                             Storage.it_profit := None;
                             Storage.it_derivTradeId := None |} st with
                  | (Returned trade, st') => (Returned trade, (cm', st'))
                  | (Thrown e, st') => (Thrown e, (cm', st'))
                  end
              (* } catch (error) { console.error(...); throw error; } *)
              | (Thrown e, api') =>
                  (Thrown e, (update_api ref (fun _ => api') cm, st))
              end
          end
    end.

(** [getClientBalance]: [user?.balance || null]. *)
Definition getClientBalance (clientId : Z)
  : M Storage.MemStorage (option string) :=
  fun st =>
    match Storage.users st !! clientId with
    | Some user => (Returned (JS.or_null (Storage.u_balance user)), st)
    | None => (Returned None, st)
    end.

(** [subscribeClientToMarketData]: each symbol comes with the value that
    [Math.random()] returns inside its [subscribeToTicks] call. *)
Definition subscribeClientToMarketData (clientId : Z)
    (symbols : list (JS.Number * string)) : M ClientManager unit :=
  fun cm =>
    match clientAPIs cm !! clientId with
    | Some ref =>
        if isClientConnected cm clientId
        then (Returned tt,
              update_api ref
                (fun a =>
                   foldl (fun a '(u, symbol) => Deriv.subscribeToTicks u symbol a)
                     a symbols) cm)
        else (Returned tt, cm)
    | None => (Returned tt, cm)
    end.

Definition unsubscribeClientFromMarketData (clientId : Z)
    (symbols : list string) : M ClientManager unit :=
  fun cm =>
    match clientAPIs cm !! clientId with
    | Some ref =>
        if isClientConnected cm clientId
        then (Returned tt,
              update_api ref
                (fun a =>
                   foldl (fun a symbol => Deriv.unsubscribeFromTicks symbol a)
                     a symbols) cm)
        else (Returned tt, cm)
    | None => (Returned tt, cm)
    end.

(** What a frame does once the ['message'] handler of the connector at
    [ref] has it: the connector's handler runs, and with it the listener
    of ['authorized'], which writes the balance to the storage (the
    listener of ['trade_result'] only writes to the console).  Neither
    looks at the transport the frame came from. *)
Definition on_message (ref : nat) (response : Deriv.Frame) (w : World)
  : World :=
  let '(cm, st) := w in
  match heap cm !! ref with
  | Some s =>
      let cm' := update_api ref (Deriv.on_message response) cm in
      if decide (Deriv.msg_type response = Some "authorize")
      then (cm', (updateClientBalance (owner s) response st).2)
      else (cm', st)
  | None => (cm, st)
  end.

(** A frame arriving on transport [i] of the connector at [ref], when
    the runtime can deliver it there. *)
Definition ws_message (ref i : nat) (response : Deriv.Frame) (w : World)
  : World :=
  match heap w.1 !! ref with
  | Some s =>
      if Deriv.enabled (api s) (Deriv.ws_message i response)
      then on_message ref response w
      else w
  | None => w
  end.

(** An error reported on transport [i] of the connector at [ref]: the
    connector's handler runs and throws; the manager has no listener
    that could run. *)
Definition ws_error (ref i : nat) (cm : ClientManager) : ClientManager :=
  match heap cm !! ref with
  | Some s =>
      if Deriv.enabled (api s) (Deriv.ws_error i)
      then update_api ref (fun a => (Deriv.on_error i a).2) cm
      else cm
  | None => cm
  end.

End Manager.

(* ===================================================================== *)
(** ** server/routes.ts: the fan-out hub and the trade endpoints *)
(* ===================================================================== *)

Module Routes.

(** What is pushed to the browser clients, before [JSON.stringify]. *)
Record MarketUpdate := {
  mu_symbol : string;
  mu_currentPrice : string;
  mu_lastUpdate : Date;
}.

Inductive Broadcast :=
  | markets (data : list Storage.Market)
  | price_update (data : list MarketUpdate)
  | trade_placed (data : Storage.Trade)
  | trade_closed (tradeId : Z) (exitPrice payout profit : string)
  | deriv_status (status : string).

(** One browser client in the [clients] set: its socket state and what
    has been sent to it. *)
Record Observer := {
  ob_readyState : Deriv.ReadyState;
  received : list Broadcast;
}.

Record Server := {
  derivAPI : Deriv.DerivAPI;
  clients : list Observer;
  storage : Storage.MemStorage;
}.

Definition with_storage (st : Storage.MemStorage) (s : Server) : Server :=
  {| derivAPI := derivAPI s; clients := clients s; storage := st |}.
Definition with_derivAPI (a : Deriv.DerivAPI) (s : Server) : Server :=
  {| derivAPI := a; clients := clients s; storage := storage s |}.

(** [clients.forEach(client => { if (client.readyState === WebSocket.OPEN)
    client.send(JSON.stringify(msg)) })] *)
Definition deliver (msg : Broadcast) (client : Observer) : Observer :=
  if decide (ob_readyState client = Deriv.OPEN)
  then {| ob_readyState := ob_readyState client;
          received := received client ++ [msg] |}
  else client.

Definition broadcast (msg : Broadcast) (s : Server) : Server :=
  {| derivAPI := derivAPI s;
     clients := deliver msg <$> clients s;
     storage := storage s |}.

(** The listener of ['tick'].  [now] is the clock when the handler
    builds [marketUpdate], [now'] the clock inside [updateMarket]. *)
Definition on_tick (now now' : Date) (t : Deriv.Tick) (s : Server) : Server :=
  let marketUpdate :=
    {| mu_symbol := Deriv.tick_symbol t;
       mu_currentPrice := JS.toString (Deriv.tick_quote t);
       mu_lastUpdate := now |} in
  let patch :=
    {| Storage.mp_id := None;
       Storage.mp_symbol := Some (mu_symbol marketUpdate);
       Storage.mp_name := None; Storage.mp_category := None;
       Storage.mp_currentPrice := Some (Some (mu_currentPrice marketUpdate));
       Storage.mp_change := None; Storage.mp_changePercent := None;
       Storage.mp_high := None; Storage.mp_low := None;
       Storage.mp_volume := None; Storage.mp_isActive := None;
       Storage.mp_lastUpdate := Some (Some (mu_lastUpdate marketUpdate)) |} in
  let '(_, st') :=
    Storage.updateMarket now' (Deriv.tick_symbol t) patch (storage s) in
  broadcast (price_update [marketUpdate]) (with_storage st' s).

(** The listener of ['connected']: the symbol directory is requested
    and the four major pairs are subscribed, each with its own draw of
    [Math.random()]. *)
Definition on_connected (u1 u2 u3 u4 : JS.Number) (a : Deriv.DerivAPI)
  : Deriv.DerivAPI :=
  foldl (fun a '(u, symbol) => Deriv.subscribeToTicks u symbol a)
    (Deriv.getActiveSymbols a)
    [ (u1, "frxEURUSD"); (u2, "frxGBPUSD"); (u3, "frxUSDJPY"); (u4, "frxAUDUSD") ].

(** Transport events of the server's connector, as the runtime delivers
    them: the connector's handler runs and with it the listeners above. *)
Definition ws_open (u1 u2 u3 u4 : JS.Number) (i : nat) (s : Server) : Server :=
  if Deriv.enabled (derivAPI s) (Deriv.ws_open i)
  then with_derivAPI (Deriv.on_open (on_connected u1 u2 u3 u4) i (derivAPI s)) s
  else s.

(** What a frame does once the ['message'] handler of the server's
    connector has it, whatever transport it came from. *)
Definition on_message (now now' : Date) (response : Deriv.Frame) (s : Server)
  : Server :=
  let s1 := with_derivAPI (Deriv.on_message response (derivAPI s)) s in
  if decide (Deriv.msg_type response = Some "tick") then
    match Deriv.frame_tick response with
    | Some t => on_tick now now' t s1
    | None => s1
    end
  else s1.

Definition ws_message (now now' : Date) (i : nat) (response : Deriv.Frame)
    (s : Server) : Server :=
  if Deriv.enabled (derivAPI s) (Deriv.ws_message i response)
  then on_message now now' response s
  else s.

(** Replies of the endpoints. *)
Inductive Response :=
  | json_trade (status : Z) (trade : Storage.Trade)
  | json_message (status : Z) (message : string).

Definition durationUnit (durationType : string) : string :=
  if decide (durationType = "minutes") then "m"
  else if decide (durationType = "hours") then "h" else "d".

Definition with_payout (trade : Storage.Trade) (payout : string)
  : Storage.Trade :=
  Storage.patch_trade trade
    {| Storage.tp_id := None; Storage.tp_userId := None;
       Storage.tp_symbol := None; Storage.tp_tradeType := None;
       Storage.tp_contractType := None; Storage.tp_stake := None;
       Storage.tp_entryPrice := None; Storage.tp_exitPrice := None;
       Storage.tp_duration := None; Storage.tp_durationType := None;
       Storage.tp_status := None; Storage.tp_payout := Some (Some payout);
       Storage.tp_profit := None; Storage.tp_derivTradeId := None;
       Storage.tp_createdAt := None; Storage.tp_closedAt := None |}.

(** [POST /api/trades].  [body] is the outcome of
    [insertTradeSchema.parse(req.body)] ([None] when it throws a
    [ZodError]); [env_token] is [process.env.DERIV_API_TOKEN] as read by
    the handler. *)
Definition post_trades (now : Date) (env_token : option string)
    (body : option Storage.InsertTrade) (s : Server) : Response * Server :=
  match body with
  | None => (json_message 400 "Invalid trade data", s)
  | Some validatedData =>
      match Storage.markets (storage s) !! Storage.it_symbol validatedData with
      | None => (json_message 404 "Market not found", s)
      | Some market =>
          let placed :=
            if (Deriv.isConnected (derivAPI s) && JS.truthy_str env_token)%bool
            then
              Deriv.placeTrade
                {| Deriv.o_symbol := Storage.it_symbol validatedData;
                   Deriv.o_tradeType := Storage.it_tradeType validatedData;
                   Deriv.o_amount := JS.parseFloat (Storage.it_stake validatedData);
                   Deriv.o_duration := Storage.it_duration validatedData;
                   Deriv.o_durationType :=
                     durationUnit (Storage.it_durationType validatedData);
                   Deriv.o_basis := "stake" |} (derivAPI s)
            else (Returned tt, derivAPI s) in
          match placed with
          | (Thrown _, api') =>
              (json_message 500 "Failed to place trade with Deriv API",
               with_derivAPI api' s)
          | (Returned _, api') =>
              let insert :=
                {| Storage.it_userId := Storage.it_userId validatedData;
                   Storage.it_symbol := Storage.it_symbol validatedData;
                   Storage.it_tradeType := Storage.it_tradeType validatedData;
                   Storage.it_contractType := Storage.it_contractType validatedData;
                   Storage.it_stake := Storage.it_stake validatedData;
                   Storage.it_entryPrice :=
                     Some (JS.or_str (Storage.m_currentPrice market) "0");
                   Storage.it_exitPrice := Storage.it_exitPrice validatedData;
                   Storage.it_duration := Storage.it_duration validatedData;
                   Storage.it_durationType := Storage.it_durationType validatedData;
                   Storage.it_status := Storage.it_status validatedData;
                   Storage.it_payout := Storage.it_payout validatedData;
                   Storage.it_profit := Storage.it_profit validatedData;
                   Storage.it_derivTradeId := Storage.it_derivTradeId validatedData |} in
              match Storage.createTrade now insert (storage s) with
              | (Returned trade, st') =>
                  let payout :=
                    JS.toFixed
                      (JS.mul (JS.parseFloat (Storage.it_stake validatedData))
                              (JS.of_decimal false 185 (-2))) 2 in
                  let s' := with_storage st' (with_derivAPI api' s) in
                  (json_trade 200 (with_payout trade payout),
                   broadcast (trade_placed (with_payout trade payout)) s')
              | (Thrown _, st') =>
                  (json_message 500 "Failed to place trade",
                   with_storage st' (with_derivAPI api' s))
              end
          end
      end
  end.

(** [POST /api/trades/:tradeId/close] *)
Definition post_close (now : Date) (tradeId : Z)
    (exitPrice payout profit : string) (s : Server) : Response * Server :=
  match Storage.closeTrade now tradeId exitPrice payout profit (storage s) with
  | (Returned _, st') =>
      (json_message 200 "Trade closed successfully",
       broadcast (trade_closed tradeId exitPrice payout profit)
         (with_storage st' s))
  | (Thrown _, st') =>
      (json_message 500 "Failed to close trade", with_storage st' s)
  end.

(** One entry of [active_symbols] in the symbol directory. *)
Record ActiveSymbol := {
  as_symbol : string;
  as_display_name : string;
  as_market : string;
  as_submarket : string;
}.

Definition directory_market (symbol : ActiveSymbol) : Storage.InsertMarket :=
  {| Storage.im_symbol := as_symbol symbol;
     Storage.im_name := as_display_name symbol;
     Storage.im_category := "forex";
     Storage.im_currentPrice := Some "0.00000";
     Storage.im_change := Some "0.00000";
     Storage.im_changePercent := Some "0.00";
     Storage.im_high := Some "0.00000";
     Storage.im_low := Some "0.00000";
     Storage.im_volume := Some "0";
     Storage.im_isActive := Some (Some true) |}.

(** [markets.forEach(market => storage.createMarket(market))]; [clock i]
    is the reading of [new Date()] inside the call for the [i]-th
    market. *)
Fixpoint store_markets (clock : nat -> Date) (i : nat)
    (markets : list Storage.InsertMarket) (st : Storage.MemStorage)
  : Storage.MemStorage :=
  match markets with
  | [] => st
  | market :: rest =>
      store_markets clock (S i) rest (Storage.createMarket (clock i) market st).2
  end.

(** The listener of ['symbols']; [active_symbols] is
    [symbolsData.active_symbols], [None] when the frame has none. *)
Definition on_symbols (clock : nat -> Date)
    (active_symbols : option (list ActiveSymbol)) (s : Server) : Server :=
  match active_symbols with
  | Some l =>
      let markets :=
        directory_market
          <$> take 10
                (filter (fun symbol =>
                           as_market symbol = "forex"
                           /\ as_submarket symbol = "major_pairs") l) in
      with_storage (store_markets clock 0 markets (storage s)) s
  | None => s
  end.

End Routes.

(* ===================================================================== *)
(** ** Predicates and scenarios used by the theorems *)
(* ===================================================================== *)

(** An order, the store after it has been placed, and the store after it
    has been closed as won. *)
Definition demo_order : Storage.InsertTrade :=
  {| Storage.it_userId := 1; Storage.it_symbol := "EUR/USD";
     Storage.it_tradeType := "CALL"; Storage.it_contractType := "Higher/Lower";
     Storage.it_stake := "100.00"; Storage.it_entryPrice := Some "1.08547";
     Storage.it_exitPrice := None; Storage.it_duration := 5;
     Storage.it_durationType := "minutes"; Storage.it_status := None;
     Storage.it_payout := None; Storage.it_profit := None;
     Storage.it_derivTradeId := None |}.

Definition store_open : Storage.MemStorage :=
  (Storage.createTrade 10 demo_order (Storage.new 0)).2.

Definition store_won : Storage.MemStorage :=
  (Storage.closeTrade 20 1 "1.09000" "185.00" "85.00" store_open).2.

(** The closing columns are all null while the trade is open and all set
    once it is not. *)
Definition trade_inv (t : Storage.Trade) : Prop :=
  (Storage.t_status t = "open" ->
     Storage.t_exitPrice t = None /\ Storage.t_payout t = None
     /\ Storage.t_profit t = None /\ Storage.t_closedAt t = None)
  /\ (Storage.t_status t <> "open" ->
        is_Some (Storage.t_exitPrice t) /\ is_Some (Storage.t_payout t)
        /\ is_Some (Storage.t_profit t) /\ is_Some (Storage.t_closedAt t)).

Definition store_inv (st : Storage.MemStorage) : Prop :=
  forall id t, Storage.trades st !! id = Some t -> trade_inv t.

(** The calls that follow the life cycle: a trade is created open, a
    patch leaves the status and the closing columns alone. *)
Definition follows_lifecycle (c : Storage.Call) : Prop :=
  match c with
  | Storage.call_createTrade _ insertTrade =>
      JS.or_str (Storage.it_status insertTrade) "open" = "open"
  | Storage.call_updateTrade _ updates =>
      Storage.tp_status updates = None /\ Storage.tp_exitPrice updates = None
      /\ Storage.tp_payout updates = None /\ Storage.tp_profit updates = None
      /\ Storage.tp_closedAt updates = None
  | _ => True
  end.

(** A connector with a credential, once connecting and once connected. *)
Definition api_connecting : Deriv.DerivAPI :=
  Deriv.run (Deriv.new (Some "token")) [Deriv.call_connect].

Definition api_connected : Deriv.DerivAPI :=
  Deriv.run (Deriv.new (Some "token")) [Deriv.call_connect; Deriv.ws_open 0].

(** The connection is lost, the first reconnect timer fires, and the
    new transport is refused: ws reports an error on it. *)
Definition lost_then_refused : list Deriv.Action :=
  [Deriv.ws_closed 0; Deriv.timeout 0; Deriv.ws_error 1].

(** Whether transport [i] of [a] has had its ['open'] delivered. *)
Definition has_opened (a : Deriv.DerivAPI) (i : nat) : bool :=
  Deriv.transport_is Deriv.opened a i.

(** What the flags of a transport say agrees with its state: a
    connecting transport has not opened, an open one has, and neither has
    reported an error. *)
Definition flags_agree (t : Deriv.Transport) : Prop :=
  match Deriv.readyState t with
  | Deriv.CONNECTING =>
      Deriv.opened t = false /\ Deriv.errorEmitted t = false
  | Deriv.OPEN => Deriv.opened t = true /\ Deriv.errorEmitted t = false
  | _ => True
  end.

(** Transport [i] of [a] has left the connecting state without
    opening. *)
Definition never_opens (a : Deriv.DerivAPI) (i : nat) : Prop :=
  exists t, Deriv.transports a !! i = Some t
            /\ Deriv.opened t = false
            /\ Deriv.readyState t <> Deriv.CONNECTING.

(** The events that the runtime, not the owner of the connector,
    delivers. *)
Definition runtime (act : Deriv.Action) : Prop :=
  match act with
  | Deriv.ws_open _ | Deriv.ws_message _ _ | Deriv.ws_error _
  | Deriv.ws_closed _ | Deriv.timeout _ => True
  | _ => False
  end.

(** The correlation ids that the subscribe calls of a run generate, in
    order. *)
Fixpoint generated_ids (acts : list Deriv.Action) : list Z :=
  match acts with
  | Deriv.call_subscribeToTicks u _ :: rest =>
      Deriv.generateRequestId u :: generated_ids rest
  | _ :: rest => generated_ids rest
  | [] => []
  end.

(** No two symbols of the table carry the same correlation id. *)
Definition distinct_ids (subs : gmap string Z) : Prop :=
  forall s1 s2 id, subs !! s1 = Some id -> subs !! s2 = Some id -> s1 = s2.

(** Every id in the table is non-zero and differs from the ids that the
    rest of the run will generate, and no id occurs twice. *)
Definition table_ok (subs : gmap string Z) (pending : list Z) : Prop :=
  (forall symbol id, subs !! symbol = Some id -> id <> 0 /\ id ∉ pending)
  /\ distinct_ids subs.

(** Three draws of [Math.random()]: the first two differ and yield the
    same correlation id, the third yields the id zero. *)
Definition draw_a : JS.Number := JS.of_decimal false 5 (-1).
Definition draw_b : JS.Number := JS.of_decimal false 50000000004 (-11).
Definition draw_low : JS.Number := JS.of_decimal false 1 (-10).

Definition demo_account : Manager.ClientAccount :=
  {| Manager.ca_userId := 7; Manager.ca_derivAccountId := "CR900001";
     Manager.ca_apiToken := "token"; Manager.ca_balance := "0";
     Manager.ca_currency := "USD"; Manager.ca_isActive := true |}.

(** The registry after client 7 has connected and its transport has
    opened. *)
Definition registry_connected : Manager.ClientManager :=
  Manager.ws_open 0 0 (Manager.connectClient demo_account Manager.new).2.

(** A registry whose one client is connected with the empty token, and
    an order for that client. *)
Definition registry_no_token : Manager.ClientManager :=
  Manager.ws_open 0 0
    (Manager.connectClient
       {| Manager.ca_userId := 7; Manager.ca_derivAccountId := "CR900001";
          Manager.ca_apiToken := ""; Manager.ca_balance := "0";
          Manager.ca_currency := "USD"; Manager.ca_isActive := true |}
       Manager.new).2.

(** Client 1, who is also a stored user: the registry after the client
    has connected, its transport has opened and [disconnectClient] has
    been called (the transport is closing and the connector is no longer
    registered, but its handlers are still attached), the store with
    that user, and the frame [{msg_type: "authorize",
    authorize: {balance: 77}}]. *)
Definition registry_closing : Manager.ClientManager :=
  (Manager.disconnectClient 1
     (Manager.ws_open 0 0
        (Manager.connectClient
           {| Manager.ca_userId := 1; Manager.ca_derivAccountId := "CR900002";
              Manager.ca_apiToken := "token"; Manager.ca_balance := "0";
              Manager.ca_currency := "USD"; Manager.ca_isActive := true |}
           Manager.new).2)).2.

Definition store_client : Storage.MemStorage :=
  (Storage.createUser 3
     {| Storage.iu_username := "client"; Storage.iu_password := "secret";
        Storage.iu_derivAccountId := Some "CR900002" |}
     (Storage.new 0)).2.

Definition balance_frame : Deriv.Frame :=
  {| Deriv.msg_type := Some "authorize";
     Deriv.frame_error := None;
     Deriv.frame_tick := None;
     Deriv.frame_balance := Some (JS.of_Z 77);
     Deriv.frame_buy := None |}.

Definition demo_request : Manager.TradeRequest :=
  {| Manager.tr_clientId := 7; Manager.tr_symbol := "frxEURUSD";
     Manager.tr_tradeType := "CALL"; Manager.tr_amount := JS.of_Z 100;
     Manager.tr_duration := 5; Manager.tr_durationType := "m";
     Manager.tr_contractType := "Higher/Lower" |}.

(** The frame [{msg_type: "tick", tick: {symbol: "frxEURUSD",
    quote: 1.0855, epoch}}]. *)
Definition eurusd_tick (epoch : Z) : Deriv.Frame :=
  {| Deriv.msg_type := Some "tick";
     Deriv.frame_error := None;
     Deriv.frame_tick :=
       Some {| Deriv.tick_symbol := "frxEURUSD";
               Deriv.tick_quote := JS.of_decimal false 10855 (-4);
               Deriv.tick_epoch := epoch |};
     Deriv.frame_balance := None;
     Deriv.frame_buy := None |}.

(** The update that the tick handler builds from that frame. *)
Definition eurusd_update (now : Date) : Routes.MarketUpdate :=
  {| Routes.mu_symbol := "frxEURUSD";
     Routes.mu_currentPrice := "1.0855";
     Routes.mu_lastUpdate := now |}.

(** A server whose connector is connected, whose store holds the market
    frxEURUSD as the symbol directory handler creates it, and which has
    two browser clients, one open and one closing. *)
Definition demo_server : Routes.Server :=
  {| Routes.derivAPI := api_connected;
     Routes.clients :=
       [ {| Routes.ob_readyState := Deriv.OPEN; Routes.received := [] |};
         {| Routes.ob_readyState := Deriv.CLOSING; Routes.received := [] |} ];
     Routes.storage :=
       (Storage.createMarket 5
          {| Storage.im_symbol := "frxEURUSD"; Storage.im_name := "EUR/USD";
             Storage.im_category := "forex";
             Storage.im_currentPrice := Some "0.00000";
             Storage.im_change := Some "0.00000";
             Storage.im_changePercent := Some "0.00";
             Storage.im_high := Some "0.00000"; Storage.im_low := Some "0.00000";
             Storage.im_volume := Some "0";
             Storage.im_isActive := Some (Some true) |}
          (Storage.new 0)).2 |}.

(** Every id handed out so far lies below the counter it came from. *)
Definition ids_below (st : Storage.MemStorage) : Prop :=
  (forall id user, Storage.users st !! id = Some user ->
     id < Storage.currentUserId st)
  /\ (forall id trade, Storage.trades st !! id = Some trade ->
        id < Storage.currentTradeId st).

(** Every market is stored under its own symbol. *)
Definition keyed_by_symbol (st : Storage.MemStorage) : Prop :=
  forall key market,
    Storage.markets st !! key = Some market -> Storage.m_symbol market = key.

(** The order in which a transport goes through its states. *)
Definition rank (r : Deriv.ReadyState) : nat :=
  match r with
  | Deriv.CONNECTING => 0
  | Deriv.OPEN => 1
  | Deriv.CLOSING => 2
  | Deriv.CLOSED => 3
  end.

(** From [a] to [b] no transport is lost and none goes back to an
    earlier state. *)
Definition advances (a b : Deriv.DerivAPI) : Prop :=
  forall i r,
    Deriv.state_of a i = Some r ->
    exists r', Deriv.state_of b i = Some r' /\ (rank r <= rank r')%nat.

(** The attempt counter and the pending delays are within the bounds of
    the policy, and the handle points at a transport that exists. *)
Definition within_policy (a : Deriv.DerivAPI) : Prop :=
  0 <= Deriv.reconnectAttempts a <= 5
  /\ Forall (fun delay => 1000 <= delay <= 16000) (Deriv.timers a)
  /\ (forall i, Deriv.ws a = Some i -> (i < length (Deriv.transports a))%nat).

(** The handle of [a] points at transport [i], which is open and has
    sent [out] so far. *)
Definition open_handle (a : Deriv.DerivAPI) (i : nat) (out : list Deriv.Request)
  : Prop :=
  Deriv.ws a = Some i
  /\ exists t,
       Deriv.transports a !! i = Some t
       /\ Deriv.readyState t = Deriv.OPEN /\ Deriv.outbox t = out.

(** The handle of [a] points at no open transport. *)
Definition no_open_handle (a : Deriv.DerivAPI) : Prop :=
  match Deriv.ws a with
  | Some i => Deriv.state_of a i <> Some Deriv.OPEN
  | None => True
  end.

(** Every registered client id refers to a connector on the heap that
    was constructed for that client. *)
Definition registry_refs_ok (cm : Manager.ClientManager) : Prop :=
  forall clientId ref,
    Manager.clientAPIs cm !! clientId = Some ref ->
    exists s, Manager.heap cm !! ref = Some s /\ Manager.owner s = clientId.

(* ===================================================================== *)
(** ** Properties of MemStorage *)
(* ===================================================================== *)

Section StorageFacts.
Import Storage.

Lemma close_trade_absorbs now now' t e p pr e' p' pr' :
  close_trade now' (close_trade now t e p pr) e' p' pr'
  = close_trade now' t e' p' pr'.
Proof. reflexivity. Qed.

Lemma closeTrade_found now id e p pr st t :
  trades st !! id = Some t ->
  closeTrade now id e p pr st
  = (Returned tt, set_trades (insert id (close_trade now t e p pr)) st).
Proof. intros H. unfold closeTrade. now rewrite H. Qed.

Lemma closeTrade_missing now id e p pr st :
  trades st !! id = None ->
  closeTrade now id e p pr st = (Returned tt, st).
Proof. intros H. unfold closeTrade. now rewrite H. Qed.

Lemma updateTrade_missing id updates st :
  trades st !! id = None ->
  updateTrade id updates st = (Returned tt, st).
Proof. intros H. unfold updateTrade. now rewrite H. Qed.

Lemma getTrade_closeTrade now id e p pr st t :
  getTrade st id = Some t ->
  getTrade (closeTrade now id e p pr st).2 id
  = Some (close_trade now t e p pr).
Proof.
  unfold getTrade. intros H. rewrite (closeTrade_found _ _ _ _ _ _ _ H).
  simpl. apply lookup_insert_eq.
Qed.

(** The status a closed trade gets. *)
Lemma close_trade_status now t e p pr :
  t_status (close_trade now t e p pr)
  = if JS.gt (JS.parseFloat pr) JS.pos_zero then "won" else "lost".
Proof. reflexivity. Qed.

End StorageFacts.

(** C1, as stated, fails: a second [closeTrade] on a trade that is
    already won, with a negative profit, turns it into a lost trade and
    replaces its exit price and profit. *)
Lemma closeTrade_second_call_overwrites :
  ~ (forall st now id e p pr t,
        Storage.getTrade st id = Some t ->
        Storage.t_status t = "won" \/ Storage.t_status t = "lost" ->
        exists t',
          Storage.getTrade (Storage.closeTrade now id e p pr st).2 id = Some t'
          /\ Storage.t_status t' = Storage.t_status t
          /\ Storage.t_exitPrice t' = Storage.t_exitPrice t
          /\ Storage.t_profit t' = Storage.t_profit t).
Proof.
  intros H.
  destruct (Storage.getTrade store_won 1) as [t|] eqn:Ht;
    [| vm_compute in Ht; discriminate].
  assert (Hst : Storage.t_status t = "won").
  { vm_compute in Ht. injection Ht as <-. reflexivity. }
  destruct (H store_won 30 1 "1.07000" "0.00" "-100.00" t Ht (or_introl Hst))
    as (t' & Hget & Hstatus & _).
  rewrite (getTrade_closeTrade _ _ _ _ _ _ _ Ht) in Hget.
  injection Hget as <-. rewrite Hst in Hstatus.
  vm_compute in Hstatus. discriminate.
Qed.

(** C1, amended: the second [closeTrade] wins.  After two calls the
    stored trade is the one a single call with the second arguments
    produces, so status, exit price, payout and profit are those of the
    second call; they equal those left by the first call when the two
    calls carry the same arguments, and the status is never ["open"]
    again. *)
Theorem closeTrade_last_call_wins st now now' id e p pr e' p' pr' t :
  Storage.getTrade st id = Some t ->
  let st1 := (Storage.closeTrade now id e p pr st).2 in
  let st2 := (Storage.closeTrade now' id e' p' pr' st1).2 in
  Storage.getTrade st2 id = Some (Storage.close_trade now' t e' p' pr')
  /\ (e' = e -> p' = p -> pr' = pr ->
      exists t1 t2,
        Storage.getTrade st1 id = Some t1 /\ Storage.getTrade st2 id = Some t2
        /\ Storage.t_status t2 = Storage.t_status t1
        /\ Storage.t_exitPrice t2 = Storage.t_exitPrice t1
        /\ Storage.t_payout t2 = Storage.t_payout t1
        /\ Storage.t_profit t2 = Storage.t_profit t1)
  /\ (exists t2, Storage.getTrade st2 id = Some t2
                 /\ (Storage.t_status t2 = "won" \/ Storage.t_status t2 = "lost")).
Proof.
  intros Ht st1 st2.
  assert (H1 : Storage.getTrade st1 id = Some (Storage.close_trade now t e p pr))
    by (apply getTrade_closeTrade; exact Ht).
  assert (H2 : Storage.getTrade st2 id
               = Some (Storage.close_trade now' t e' p' pr')).
  { unfold st2. rewrite (getTrade_closeTrade _ _ _ _ _ _ _ H1).
    now rewrite close_trade_absorbs. }
  split; [exact H2 |]. split.
  - intros -> -> ->.
    exists (Storage.close_trade now t e p pr), (Storage.close_trade now' t e p pr).
    repeat split; [exact H1 | exact H2].
  - eexists. split; [exact H2 |]. rewrite close_trade_status.
    destruct (JS.gt _ _); [now left | now right].
Qed.

Lemma closeTrade_last_call_wins_witness :
  Storage.getTrade
    (Storage.closeTrade 30 1 "1.07000" "0.00" "-100.00" store_won).2 1
  = Some (Storage.close_trade 30
            {| Storage.t_id := 1; Storage.t_userId := 1;
               Storage.t_symbol := "EUR/USD"; Storage.t_tradeType := "CALL";
               Storage.t_contractType := "Higher/Lower";
               Storage.t_stake := "100.00";
               Storage.t_entryPrice := Some "1.08547";
               Storage.t_exitPrice := None; Storage.t_duration := 5;
               Storage.t_durationType := "minutes"; Storage.t_status := "open";
               Storage.t_payout := None; Storage.t_profit := None;
               Storage.t_derivTradeId := None; Storage.t_createdAt := Some 10;
               Storage.t_closedAt := None |}
            "1.07000" "0.00" "-100.00").
Proof.
  refine (proj1 (closeTrade_last_call_wins store_open 20 30 1
                   "1.09000" "185.00" "85.00" "1.07000" "0.00" "-100.00" _ _)).
  vm_compute. reflexivity.
Defined.

(** *** The life cycle of a trade *)

Lemma trade_inv_close_trade now t e p pr :
  trade_inv (Storage.close_trade now t e p pr).
Proof.
  split; simpl.
  - destruct (JS.gt _ _); discriminate.
  - intros _. repeat split; eexists; reflexivity.
Qed.

Lemma trade_inv_patch t updates :
  Storage.tp_status updates = None -> Storage.tp_exitPrice updates = None ->
  Storage.tp_payout updates = None -> Storage.tp_profit updates = None ->
  Storage.tp_closedAt updates = None ->
  trade_inv t -> trade_inv (Storage.patch_trade t updates).
Proof.
  intros H1 H2 H3 H4 H5 Hinv. unfold trade_inv, Storage.patch_trade. simpl.
  rewrite H1, H2, H3, H4, H5. exact Hinv.
Qed.

Lemma store_inv_insert (st : Storage.MemStorage) id t :
  store_inv st -> trade_inv t ->
  store_inv (Storage.set_trades (insert id t) st).
Proof.
  intros Hst Ht id' t'. simpl. rewrite lookup_insert.
  case_decide; [intros [= <-]; exact Ht | apply Hst].
Qed.

Lemma store_inv_preserved c st :
  follows_lifecycle c -> store_inv st -> store_inv (Storage.perform c st).
Proof.
  intros Hc Hst. destruct c; simpl in *.
  - exact Hst.
  - unfold Storage.updateUserBalance.
    destruct (Storage.users st !! userId); exact Hst.
  - unfold Storage.updateMarket.
    destruct (Storage.markets st !! symbol); exact Hst.
  - exact Hst.
  - intros id t. simpl. rewrite lookup_insert.
    case_decide; [| apply Hst].
    intros [= <-]. split; simpl; [now intros _ | congruence].
  - unfold Storage.updateTrade.
    destruct (Storage.trades st !! tradeId) as [t|] eqn:Ht; [| exact Hst].
    destruct Hc as (H1 & H2 & H3 & H4 & H5).
    apply store_inv_insert; [exact Hst |].
    apply trade_inv_patch; eauto.
  - unfold Storage.closeTrade.
    destruct (Storage.trades st !! tradeId) as [t|] eqn:Ht; [| exact Hst].
    apply store_inv_insert; [exact Hst | apply trade_inv_close_trade].
Qed.

(** C9, as stated, fails: [updateTrade] stores whatever patch it is
    given, so a patch that only sets the status to ["won"] leaves a
    closed trade whose exit price is null. *)
Lemma updateTrade_breaks_trade_invariant :
  ~ (forall c st, store_inv st -> store_inv (Storage.perform c st)).
Proof.
  intros H.
  pose (patch :=
    {| Storage.tp_id := None; Storage.tp_userId := None;
       Storage.tp_symbol := None; Storage.tp_tradeType := None;
       Storage.tp_contractType := None; Storage.tp_stake := None;
       Storage.tp_entryPrice := None; Storage.tp_exitPrice := None;
       Storage.tp_duration := None; Storage.tp_durationType := None;
       Storage.tp_status := Some "won"; Storage.tp_payout := None;
       Storage.tp_profit := None; Storage.tp_derivTradeId := None;
       Storage.tp_createdAt := None; Storage.tp_closedAt := None |}).
  assert (Hopen : store_inv store_open).
  { apply (store_inv_preserved (Storage.call_createTrade 10 demo_order));
      [reflexivity |].
    intros id t Hl. vm_compute in Hl. discriminate. }
  specialize (H (Storage.call_updateTrade 1 patch) store_open Hopen).
  destruct (Storage.trades (Storage.perform (Storage.call_updateTrade 1 patch)
                              store_open) !! 1) as [t|] eqn:Ht;
    [| vm_compute in Ht; discriminate].
  destruct (H 1 t Ht) as [_ Hclosed].
  vm_compute in Ht. injection Ht as <-.
  destruct Hclosed as ([x Hx] & _); [discriminate | discriminate].
Qed.

(** C9, amended: the invariant holds in the initial store and is kept by
    every storage call that follows the life cycle: [createTrade] with
    no status or the status ["open"], [updateTrade] with a patch that
    leaves the status and the closing columns alone, [closeTrade], and
    the user and market calls.  [closeTrade] sets the four closing
    columns and makes the status ["won"] exactly when
    [parseFloat(profit) > 0], ["lost"] otherwise. *)
Theorem trade_invariant_of_lifecycle_calls :
  (forall now, store_inv (Storage.new now))
  /\ (forall c st,
        follows_lifecycle c -> store_inv st -> store_inv (Storage.perform c st))
  /\ (forall now st id e p pr t,
        Storage.getTrade st id = Some t ->
        exists t',
          Storage.getTrade (Storage.closeTrade now id e p pr st).2 id = Some t'
          /\ Storage.t_exitPrice t' = Some e /\ Storage.t_payout t' = Some p
          /\ Storage.t_profit t' = Some pr /\ Storage.t_closedAt t' = Some now
          /\ (Storage.t_status t' = "won"
              <-> JS.gt (JS.parseFloat pr) JS.pos_zero = true)
          /\ (Storage.t_status t' = "lost"
              <-> JS.gt (JS.parseFloat pr) JS.pos_zero = false)).
Proof.
  split; [| split].
  - intros now id t H. vm_compute in H. discriminate.
  - apply store_inv_preserved.
  - intros now st id e p pr t Ht.
    exists (Storage.close_trade now t e p pr).
    split; [now apply getTrade_closeTrade |].
    repeat split; simpl; destruct (JS.gt _ _); congruence.
Qed.

Lemma trade_invariant_of_lifecycle_calls_witness :
  store_inv (Storage.perform
               (Storage.call_closeTrade 20 1 "1.09000" "185.00" "85.00")
               (Storage.perform (Storage.call_createTrade 10 demo_order)
                  (Storage.new 0))).
Proof.
  apply (proj1 (proj2 trade_invariant_of_lifecycle_calls)); [exact I |].
  apply (proj1 (proj2 trade_invariant_of_lifecycle_calls)); [reflexivity |].
  apply (proj1 trade_invariant_of_lifecycle_calls).
Defined.

(** C10: for a trade id that is not in the store, [closeTrade] and
    [updateTrade] return without throwing and leave the whole storage
    (users, markets, trades and both id counters) as it was. *)
Theorem closeTrade_updateTrade_missing_id
    st now tradeId exitPrice payout profit updates :
  Storage.trades st !! tradeId = None ->
  Storage.closeTrade now tradeId exitPrice payout profit st = (Returned tt, st)
  /\ Storage.updateTrade tradeId updates st = (Returned tt, st).
Proof.
  intros H. split.
  - now apply closeTrade_missing.
  - now apply updateTrade_missing.
Qed.

Lemma closeTrade_updateTrade_missing_id_witness :
  Storage.closeTrade 30 7 "1.07000" "0.00" "-100.00" store_won
    = (Returned tt, store_won)
  /\ Storage.updateTrade 7 Storage.empty_trade_patch store_won
    = (Returned tt, store_won).
Proof.
  apply (closeTrade_updateTrade_missing_id store_won 30 7).
  vm_compute. reflexivity.
Defined.

(* ===================================================================== *)
(** ** Properties of the connector *)
(* ===================================================================== *)

Section TransportFacts.
Import Deriv.

Lemma state_of_set_eq i r a :
  is_Some (state_of a i) -> state_of (set_readyState i r a) i = Some r.
Proof.
  unfold state_of, set_readyState. simpl. rewrite list_lookup_alter_eq.
  destruct (transports a !! i); [reflexivity | intros [? [=]]].
Qed.

Lemma state_of_set_ne i j r a :
  i <> j -> state_of (set_readyState i r a) j = state_of a j.
Proof.
  intros H. unfold state_of, set_readyState. simpl.
  now rewrite list_lookup_alter_ne.
Qed.

Lemma state_of_set_opened i a j : state_of (set_opened i a) j = state_of a j.
Proof.
  unfold state_of, set_opened. simpl. destruct (decide (i = j)) as [-> | Hne].
  - rewrite list_lookup_alter_eq. now destruct (transports a !! j).
  - now rewrite list_lookup_alter_ne.
Qed.

Lemma state_of_set_errorEmitted i a j :
  state_of (set_errorEmitted i a) j = state_of a j.
Proof.
  unfold state_of, set_errorEmitted. simpl.
  destruct (decide (i = j)) as [-> | Hne].
  - rewrite list_lookup_alter_eq. now destruct (transports a !! j).
  - now rewrite list_lookup_alter_ne.
Qed.



Lemma has_opened_state a i :
  has_opened a i = true -> is_Some (state_of a i).
Proof.
  unfold has_opened, transport_is, state_of.
  destruct (transports a !! i); [eauto | discriminate].
Qed.

Lemma never_opens_same a b i :
  transports b = transports a -> never_opens a i -> never_opens b i.
Proof. unfold never_opens. now intros ->. Qed.

Lemma never_opens_alter f j a i :
  (forall t, opened t = false -> readyState t <> CONNECTING ->
             opened (f t) = false /\ readyState (f t) <> CONNECTING) ->
  never_opens a i ->
  never_opens (with_transports (alter f j (transports a)) a) i.
Proof.
  intros Hf (t & Ht & Ho & Hr). unfold never_opens. simpl.
  destruct (decide (j = i)) as [-> | Hne].
  - exists (f t). rewrite list_lookup_alter_eq, Ht. simpl.
    destruct (Hf t Ho Hr). auto.
  - exists t. now rewrite list_lookup_alter_ne.
Qed.

Lemma never_opens_set_readyState j r a i :
  r <> CONNECTING -> never_opens a i -> never_opens (set_readyState j r a) i.
Proof. intros Hr. apply never_opens_alter. intros t Ho _. simpl. auto. Qed.

Lemma never_opens_ws_close j a i : never_opens a i -> never_opens (ws_close j a) i.
Proof.
  intros H. unfold ws_close.
  destruct (state_of a j) as [[]|]; try exact H;
    now apply never_opens_set_readyState.
Qed.

Lemma never_opens_send data a i : never_opens a i -> never_opens (send data a) i.
Proof.
  intros H. unfold send. destruct (ws a) as [j|]; [| exact H].
  destruct (transports a !! j) as [t|] eqn:Ht; [| exact H].
  case_decide as Hopen; [| exact H].
  destruct H as (t' & Ht' & Ho & Hr). unfold never_opens. simpl.
  destruct (decide (j = i)) as [-> | Hne].
  - rewrite list_lookup_insert_eq by (eapply lookup_lt_Some; eauto).
    eexists. split; [reflexivity |]. simpl. split; [congruence | discriminate].
  - exists t'. now rewrite list_lookup_insert_ne.
Qed.

Lemma never_opens_connect a i : never_opens a i -> never_opens (connect a) i.
Proof.
  intros (t & Ht & Ho & Hr). exists t. simpl.
  now rewrite (lookup_app_l_Some _ _ _ _ Ht).
Qed.

Lemma never_opens_step a act i : never_opens a i -> never_opens (step a act) i.
Proof.
  intros H. unfold step. destruct (enabled a act) eqn:Hen; [| exact H].
  destruct act; simpl in Hen.
  - now apply never_opens_connect.
  - unfold disconnect. destruct (ws a); [| exact H].
    apply (never_opens_same (ws_close n a)); [reflexivity |].
    now apply never_opens_ws_close.
  - unfold subscribeToTicks. apply never_opens_send.
    now apply (never_opens_same a).
  - unfold unsubscribeFromTicks. destruct (subscriptions a !! symbol); [| exact H].
    destruct (JS.truthy_int z); [| exact H].
    apply (never_opens_same (send (Forget z) a)); [reflexivity |].
    now apply never_opens_send.
  - now apply never_opens_send.
  - apply bool_decide_eq_true in Hen.
    assert (Hne : i0 <> i).
    { intros ->. destruct H as (t & Ht & _ & Hr).
      unfold state_of in Hen. rewrite Ht in Hen. simpl in Hen. congruence. }
    assert (H5 : never_opens
                   (emit connected
                      (with_reconnectAttempts 0
                         (with_isConnected true
                            (log log_connected
                               (set_opened i0 (set_readyState i0 OPEN a)))))) i).
    { apply (never_opens_same (set_opened i0 (set_readyState i0 OPEN a)));
        [reflexivity |].
      destruct H as (t & Ht & Ho & Hr). exists t.
      unfold set_opened, set_readyState. simpl.
      now rewrite !list_lookup_alter_ne. }
    unfold on_open. unfold id.
    destruct (JS.truthy_str _); [| exact H5].
    unfold authorize. destruct (apiToken _) as [[|c r]|]; try exact H5.
    now apply never_opens_send.
  - unfold on_message, handleMessage.
    repeat case_decide; try (now apply (never_opens_same a)).
    destruct (frame_error response); [now apply (never_opens_same a) | exact H].
  - apply (never_opens_same (set_errorEmitted i0 (ws_close i0 a))); [reflexivity |].
    unfold set_errorEmitted. apply never_opens_alter.
    + intros t Ho Hr. simpl. auto.
    + now apply never_opens_ws_close.
  - unfold on_close, handleReconnect. simpl.
    destruct (_ <? _);
      (eapply never_opens_same;
        [| apply (never_opens_set_readyState i0 CLOSED a i); [discriminate | exact H]]);
      reflexivity.
  - unfold fire_timer. destruct (timers a !! j); [| exact H].
    apply never_opens_connect. now apply (never_opens_same a).
Qed.

Lemma never_opens_run acts a i : never_opens a i -> never_opens (run a acts) i.
Proof.
  revert a. induction acts as [|act acts IH]; intros a H; [exact H |].
  simpl. apply IH. now apply never_opens_step.
Qed.

Lemma never_opens_disabled a i :
  never_opens a i ->
  enabled a (ws_open i) = false /\ enabled a (ws_closed i) = false
  /\ forall response, enabled a (ws_message i response) = false.
Proof.
  intros (t & Ht & Ho & Hr). repeat split.
  - apply bool_decide_eq_false. unfold state_of. rewrite Ht. simpl. congruence.
  - simpl. unfold transport_is. now rewrite Ht, Ho.
  - intros response. simpl. unfold transport_is. now rewrite Ht, Ho.
Qed.

Lemma flags_agree_send data a :
  Forall flags_agree (transports a) -> Forall flags_agree (transports (send data a)).
Proof.
  intros H. unfold send. destruct (ws a) as [j|]; [| exact H].
  destruct (transports a !! j) as [t|] eqn:Ht; [| exact H].
  case_decide as Hopen; [| exact H].
  simpl. apply Forall_insert; [exact H |].
  pose proof (Forall_lookup_1 _ _ _ _ H Ht) as Hwf.
  unfold flags_agree in *. now rewrite Hopen in Hwf.
Qed.

Lemma flags_agree_set_readyState i r a :
  r = CLOSING \/ r = CLOSED ->
  Forall flags_agree (transports a) ->
  Forall flags_agree (transports (set_readyState i r a)).
Proof.
  intros Hr H. simpl. apply Forall_alter; [exact H |].
  intros t _ _. unfold flags_agree. simpl. now destruct Hr as [-> | ->].
Qed.

Lemma flags_agree_ws_close i a :
  Forall flags_agree (transports a) ->
  Forall flags_agree (transports (ws_close i a)).
Proof.
  intros H. unfold ws_close. destruct (state_of a i) as [[]|]; try exact H;
    (apply flags_agree_set_readyState; [now left | exact H]).
Qed.

Lemma ws_close_not_live i a t :
  transports (ws_close i a) !! i = Some t ->
  readyState t = CLOSING \/ readyState t = CLOSED.
Proof.
  unfold ws_close, state_of.
  destruct (transports a !! i) as [t0|] eqn:Ht0; simpl.
  - destruct (readyState t0) eqn:Hr; simpl;
      rewrite ?list_lookup_alter_eq, Ht0; simpl; intros [= <-]; simpl; auto.
  - rewrite Ht0. discriminate.
Qed.

Lemma flags_agree_step a act :
  Forall flags_agree (transports a) ->
  Forall flags_agree (transports (step a act)).
Proof.
  intros H. unfold step. destruct (enabled a act) eqn:Hen; [| exact H].
  destruct act; simpl in Hen.
  - simpl. apply Forall_app. split; [exact H |].
    apply Forall_singleton. unfold flags_agree. simpl. auto.
  - unfold disconnect. destruct (ws a); [| exact H].
    now apply (flags_agree_ws_close n a).
  - unfold subscribeToTicks. now apply flags_agree_send.
  - unfold unsubscribeFromTicks. destruct (subscriptions a !! symbol); [| exact H].
    destruct (JS.truthy_int z); [| exact H].
    now apply (flags_agree_send (Forget z) a).
  - now apply flags_agree_send.
  - apply bool_decide_eq_true in Hen.
    assert (H5 : Forall flags_agree
                   (transports
                      (emit connected
                         (with_reconnectAttempts 0
                            (with_isConnected true
                               (log log_connected
                                  (set_opened i (set_readyState i OPEN a)))))))).
    { simpl. rewrite list_alter_alter_eq. apply Forall_alter; [exact H |].
      intros t Ht Hwf. unfold state_of in Hen. rewrite Ht in Hen.
      injection Hen as Hc. unfold flags_agree in *. rewrite Hc in Hwf.
      simpl. split; [reflexivity | apply Hwf]. }
    unfold on_open, id. destruct (JS.truthy_str _); [| exact H5].
    unfold authorize. destruct (apiToken _) as [[|c r]|]; try exact H5.
    now apply flags_agree_send.
  - unfold on_message, handleMessage.
    repeat case_decide; try exact H. now destruct (frame_error response).
  - simpl. apply Forall_lookup. intros j t Ht.
    destruct (decide (i = j)) as [<- | Hne].
    + rewrite list_lookup_alter_eq in Ht.
      destruct (transports (ws_close i a) !! i) as [t0|] eqn:Ht0; [| discriminate].
      injection Ht as <-. unfold flags_agree. simpl.
      now destruct (ws_close_not_live _ _ _ Ht0) as [-> | ->].
    + rewrite list_lookup_alter_ne in Ht by exact Hne.
      exact (Forall_lookup_1 _ _ _ _ (flags_agree_ws_close i a H) Ht).
  - unfold on_close, handleReconnect.
    destruct (_ <? _); (apply (flags_agree_set_readyState i CLOSED a); [now right | exact H]).
  - unfold fire_timer. destruct (timers a !! j); [| exact H].
    simpl. apply Forall_app. split; [exact H |].
    apply Forall_singleton. unfold flags_agree. simpl. auto.
Qed.

End TransportFacts.

(** In every state a new connector can reach, the flags of each
    transport agree with its state: a connecting transport has not
    opened and an open one has. *)
Lemma reachable_flags_agree token acts i t :
  Deriv.transports (Deriv.run (Deriv.new token) acts) !! i = Some t ->
  flags_agree t.
Proof.
  apply Forall_lookup_1.
  assert (H : forall a, Forall flags_agree (Deriv.transports a) ->
                Forall flags_agree (Deriv.transports (Deriv.run a acts))).
  { induction acts as [|act acts IH]; intros a Ha; [exact Ha |].
    simpl. apply IH. now apply flags_agree_step. }
  apply H. simpl. constructor.
Qed.

(** C6, as stated, fails: [connect] on a connector that is connecting,
    or connected, constructs a second transport and moves the handle to
    it. *)
Lemma connect_again_opens_second_transport :
  ~ (forall a i,
        Deriv.ws a = Some i ->
        Deriv.state_of a i = Some Deriv.CONNECTING
        \/ Deriv.state_of a i = Some Deriv.OPEN ->
        Deriv.connect a = a).
Proof.
  intros H.
  assert (H1 := H api_connected 0%nat eq_refl (or_intror eq_refl)).
  apply (f_equal Deriv.ws) in H1. vm_compute in H1. discriminate.
Qed.

(** C6, amended: [connect] has no guard.  Whatever the state of the
    connector, it constructs a new transport, in the connecting state,
    appends it to the transports that exist already (which it neither
    closes nor changes), and makes it the connection handle; the
    connected flag, the attempt counter, the subscription table, the
    pending timers and the emitted events are left as they were. *)
Theorem connect_always_constructs_transport a :
  Deriv.ws (Deriv.connect a) = Some (length (Deriv.transports a))
  /\ Deriv.transports (Deriv.connect a)
     = Deriv.transports a
       ++ [ {| Deriv.readyState := Deriv.CONNECTING; Deriv.outbox := [];
               Deriv.opened := false; Deriv.errorEmitted := false |} ]
  /\ (forall j, (j < length (Deriv.transports a))%nat ->
        Deriv.transports (Deriv.connect a) !! j = Deriv.transports a !! j)
  /\ Deriv.isConnected (Deriv.connect a) = Deriv.isConnected a
  /\ Deriv.reconnectAttempts (Deriv.connect a) = Deriv.reconnectAttempts a
  /\ Deriv.subscriptions (Deriv.connect a) = Deriv.subscriptions a
  /\ Deriv.timers (Deriv.connect a) = Deriv.timers a
  /\ Deriv.emitted (Deriv.connect a) = Deriv.emitted a.
Proof.
  repeat split. intros j Hj. simpl. now rewrite lookup_app_l.
Qed.




(** *** The reconnection policy *)

Section ReconnectFacts.
Import Deriv.

Lemma handleReconnect_retry a :
  reconnectAttempts a < 5 ->
  handleReconnect a
  = with_timers (timers a ++ [1000 * 2 ^ reconnectAttempts a])
      (log (log_reconnect (1000 * 2 ^ reconnectAttempts a) (reconnectAttempts a + 1))
         (with_reconnectAttempts (reconnectAttempts a + 1) a)).
Proof.
  intros H. unfold handleReconnect, maxReconnectAttempts, reconnectDelay.
  replace (reconnectAttempts a <? 5) with true by (symmetry; now apply Z.ltb_lt).
  now replace (reconnectAttempts a + 1 - 1) with (reconnectAttempts a) by lia.
Qed.

Lemma handleReconnect_exhausted a :
  5 <= reconnectAttempts a ->
  handleReconnect a = emit max_reconnect_reached (log log_max_reached a).
Proof.
  intros H. unfold handleReconnect, maxReconnectAttempts.
  now replace (reconnectAttempts a <? 5) with false
    by (symmetry; now apply Z.ltb_ge).
Qed.

Lemma send_reconnectAttempts data a :
  reconnectAttempts (send data a) = reconnectAttempts a.
Proof.
  unfold send. destruct (ws a); [| reflexivity].
  destruct (transports a !! n); [| reflexivity].
  now case_decide.
Qed.

Lemma on_open_resets listeners i a :
  (forall x, reconnectAttempts (listeners x) = reconnectAttempts x) ->
  reconnectAttempts (on_open listeners i a) = 0.
Proof.
  intros H. unfold on_open. destruct (JS.truthy_str _).
  - unfold authorize.
    destruct (apiToken _) as [[|c r]|]; rewrite ?send_reconnectAttempts;
      now rewrite H.
  - now rewrite H.
Qed.

Lemma step_ws_closed a i :
  enabled a (ws_closed i) = true -> step a (ws_closed i) = on_close i a.
Proof. intros H. unfold step. now rewrite H. Qed.

Lemma nothing_enabled a :
  timers a = [] ->
  (forall i, enabled a (ws_open i) = false /\ enabled a (ws_closed i) = false
             /\ enabled a (ws_error i) = false
             /\ forall response, enabled a (ws_message i response) = false) ->
  forall acts, Forall runtime acts -> run a acts = a.
Proof.
  intros Htm Hoff acts. induction 1 as [|act acts Hact _ IH]; [reflexivity |].
  simpl. replace (step a act) with a; [exact IH |].
  unfold step. destruct (Hoff 0%nat) as (_ & _ & _ & _).
  destruct act; simpl in Hact; try contradiction.
  - destruct (Hoff i) as (-> & _). reflexivity.
  - destruct (Hoff i) as (_ & _ & _ & ->). reflexivity.
  - destruct (Hoff i) as (_ & _ & -> & _). reflexivity.
  - destruct (Hoff i) as (_ & -> & _). reflexivity.
  - simpl. now rewrite Htm.
Qed.

End ReconnectFacts.

(** The policy as the close and open handlers implement it, one event at
    a time.
    - With [k - 1] attempts made, [1 <= k <= 5], the close handler
      schedules the [k]-th attempt after [1000 * 2^(k-1)] ms and counts
      it; it emits nothing.
    - With five attempts made it schedules nothing and emits
      [max_reconnect_reached] once.
    - The open handler resets the counter to zero. *)
Lemma handlers_follow_policy :
  (forall a k,
      1 <= k <= 5 -> Deriv.reconnectAttempts a = k - 1 ->
      Deriv.timers (Deriv.handleReconnect a)
      = Deriv.timers a ++ [Deriv.reconnectDelay * 2 ^ (k - 1)]
      /\ Deriv.reconnectAttempts (Deriv.handleReconnect a) = k
      /\ Deriv.emitted (Deriv.handleReconnect a) = Deriv.emitted a)
  /\ (forall a,
        5 <= Deriv.reconnectAttempts a ->
        Deriv.timers (Deriv.handleReconnect a) = Deriv.timers a
        /\ Deriv.reconnectAttempts (Deriv.handleReconnect a)
           = Deriv.reconnectAttempts a
        /\ Deriv.emitted (Deriv.handleReconnect a)
           = Deriv.emitted a ++ [Deriv.max_reconnect_reached])
  /\ (forall a i,
        Deriv.enabled a (Deriv.ws_open i) = true ->
        Deriv.reconnectAttempts (Deriv.step a (Deriv.ws_open i)) = 0).
Proof.
  split; [| split].
  - intros a k Hk Hatt. rewrite handleReconnect_retry by lia.
    simpl. rewrite Hatt. unfold Deriv.reconnectDelay.
    repeat split. lia.
  - intros a H. now rewrite handleReconnect_exhausted.
  - intros a i Hen. unfold Deriv.step. rewrite Hen.
    now apply on_open_resets.
Qed.

(** C5, on the run [lost_then_refused] from a connected connector: the
    connection is lost, the first attempt is scheduled after 1000 ms and
    made, and the network refuses it.  The handler of the error that ws
    reports emits ['error'] on the connector, which throws.  ws
    therefore emits no ['close'] for the refused transport and
    [handleReconnect] does not run for it: the attempt counter stays at
    1, no second attempt is scheduled, [max_reconnect_reached] has not
    been emitted, and nothing is left that the runtime could deliver to
    the connector (no transport event, no timer). *)
Lemma refused_attempt_ends_reconnection :
  let a := Deriv.run api_connected [Deriv.ws_closed 0; Deriv.timeout 0] in
  let b := Deriv.run api_connected lost_then_refused in
  Deriv.reconnectAttempts a = 1
  /\ Deriv.ws a = Some 1%nat
  /\ Deriv.state_of a 1 = Some Deriv.CONNECTING
  /\ Deriv.enabled a (Deriv.ws_error 1) = true
  /\ Deriv.on_error 1 a = (Thrown Deriv.unhandled_error, b)
  /\ Deriv.reconnectAttempts b = 1
  /\ Deriv.timers b = []
  /\ Deriv.emitted b = [Deriv.connected; Deriv.disconnected]
  /\ Deriv.console b
     = [ Deriv.log_connected; Deriv.log_disconnected;
         Deriv.log_reconnect 1000 1; Deriv.log_ws_error ]
  /\ Deriv.state_of b 0 = Some Deriv.CLOSED
  /\ Deriv.state_of b 1 = Some Deriv.CLOSING
  /\ (forall i,
        Deriv.enabled b (Deriv.ws_open i) = false
        /\ Deriv.enabled b (Deriv.ws_closed i) = false
        /\ Deriv.enabled b (Deriv.ws_error i) = false
        /\ forall response, Deriv.enabled b (Deriv.ws_message i response) = false)
  /\ (forall j, Deriv.enabled b (Deriv.timeout j) = false).
Proof.
  cbv zeta.
  do 11 (split; [vm_compute; reflexivity |]).
  split.
  - intros [|[|i]]; repeat split; try intros response; vm_compute; reflexivity.
  - intros j. apply bool_decide_eq_false. intros [x Hx]. vm_compute in Hx.
    destruct j; discriminate.
Qed.

(** After that run no sequence of runtime events changes the connector
    any more. *)
Lemma nothing_follows_refused_attempt acts :
  Forall runtime acts ->
  Deriv.run (Deriv.run api_connected lost_then_refused) acts
  = Deriv.run api_connected lost_then_refused.
Proof.
  apply nothing_enabled.
  - vm_compute. reflexivity.
  - intros [|[|i]]; repeat split; try intros response; vm_compute; reflexivity.
Qed.

(** The same holds of every refused attempt, in whatever state the
    connector is: the error reported on a connecting transport leaves
    the timers, the attempt counter and the emitted events as they were,
    and neither ['open'] nor ['close'] is delivered for that transport
    in any continuation. *)
Lemma refused_attempt_schedules_nothing a i t :
  Deriv.transports a !! i = Some t ->
  Deriv.readyState t = Deriv.CONNECTING ->
  Deriv.opened t = false ->
  Deriv.errorEmitted t = false ->
  let b := Deriv.step a (Deriv.ws_error i) in
  Deriv.enabled a (Deriv.ws_error i) = true
  /\ Deriv.state_of b i = Some Deriv.CLOSING
  /\ Deriv.timers b = Deriv.timers a
  /\ Deriv.reconnectAttempts b = Deriv.reconnectAttempts a
  /\ Deriv.emitted b = Deriv.emitted a
  /\ (forall acts,
        Deriv.enabled (Deriv.run b acts) (Deriv.ws_open i) = false
        /\ Deriv.enabled (Deriv.run b acts) (Deriv.ws_closed i) = false).
Proof.
  intros Ht Hr Ho He b.
  assert (Hen : Deriv.enabled a (Deriv.ws_error i) = true).
  { simpl. unfold Deriv.transport_is. now rewrite Ht, He, Hr. }
  assert (Hst : Deriv.state_of a i = Some Deriv.CONNECTING).
  { unfold Deriv.state_of. now rewrite Ht, <- Hr. }
  assert (Hb : b = Deriv.log Deriv.log_ws_error
                     (Deriv.set_errorEmitted i
                        (Deriv.set_readyState i Deriv.CLOSING a))).
  { unfold b, Deriv.step. rewrite Hen.
    unfold Deriv.on_error, Deriv.emit_error, Deriv.ws_close. now rewrite Hst. }
  assert (Hlook : Deriv.transports b !! i
                  = Some {| Deriv.readyState := Deriv.CLOSING;
                            Deriv.outbox := Deriv.outbox t;
                            Deriv.opened := Deriv.opened t;
                            Deriv.errorEmitted := true |}).
  { rewrite Hb. simpl. now rewrite !list_lookup_alter_eq, Ht. }
  split; [exact Hen |].
  split; [unfold Deriv.state_of; now rewrite Hlook |].
  do 3 (split; [now rewrite Hb |]).
  intros acts.
  assert (Hdead : never_opens b i).
  { eexists. split; [exact Hlook |]. simpl. split; [exact Ho | discriminate]. }
  destruct (never_opens_disabled _ _ (never_opens_run acts _ _ Hdead))
    as (H1 & H2 & _).
  now split.
Qed.

(** *** The subscription table *)

Section SubscriptionFacts.
Import Deriv.

Lemma send_subscriptions data a : subscriptions (send data a) = subscriptions a.
Proof.
  unfold send. destruct (ws a); [| reflexivity].
  destruct (transports a !! n); [| reflexivity].
  now case_decide.
Qed.

Lemma subscribeToTicks_subscriptions u symbol a :
  subscriptions (subscribeToTicks u symbol a)
  = <[symbol := generateRequestId u]> (subscriptions a).
Proof. unfold subscribeToTicks. now rewrite send_subscriptions. Qed.

Lemma unsubscribeFromTicks_subscriptions symbol a :
  subscriptions (unsubscribeFromTicks symbol a)
  = match subscriptions a !! symbol with
    | Some reqId =>
        if JS.truthy_int reqId then delete symbol (subscriptions a)
        else subscriptions a
    | None => subscriptions a
    end.
Proof.
  unfold unsubscribeFromTicks. destruct (subscriptions a !! symbol); [| reflexivity].
  destruct (JS.truthy_int z); [| reflexivity].
  simpl. now rewrite send_subscriptions.
Qed.

Lemma authorize_subscriptions a : subscriptions (authorize a) = subscriptions a.
Proof.
  unfold authorize. destruct (apiToken a) as [[|c r]|];
    rewrite ?send_subscriptions; reflexivity.
Qed.

(** Only the two subscription calls touch the table. *)
Lemma step_subscriptions a act :
  subscriptions (step a act)
  = match act with
    | call_subscribeToTicks u symbol =>
        <[symbol := generateRequestId u]> (subscriptions a)
    | call_unsubscribeFromTicks symbol =>
        subscriptions (unsubscribeFromTicks symbol a)
    | _ => subscriptions a
    end.
Proof.
  unfold step. destruct (enabled a act) eqn:Hen.
  - destruct act; try reflexivity.
    + unfold disconnect. destruct (ws a); [| reflexivity].
      simpl. unfold ws_close. now destruct (state_of a n) as [[]|].
    + apply subscribeToTicks_subscriptions.
    + apply send_subscriptions.
    + unfold on_open. destruct (JS.truthy_str _);
        rewrite ?authorize_subscriptions; reflexivity.
    + unfold on_message, handleMessage. repeat case_decide; try reflexivity.
      now destruct (frame_error response).
    + unfold on_error, emit_error, ws_close. simpl.
      now destruct (state_of a i) as [[]|].
    + unfold on_close, handleReconnect. now destruct (_ <? _).
    + unfold fire_timer. now destruct (timers a !! j).
  - destruct act; try reflexivity; discriminate.
Qed.

Lemma table_ok_delete subs pending symbol :
  table_ok subs pending -> table_ok (delete symbol subs) pending.
Proof.
  intros [H1 H2]. split.
  - intros s id Hl. apply lookup_delete_Some in Hl as [_ Hl]. eauto.
  - intros s1 s2 id Hl1 Hl2.
    apply lookup_delete_Some in Hl1 as [_ Hl1].
    apply lookup_delete_Some in Hl2 as [_ Hl2]. eauto.
Qed.

Lemma table_ok_insert subs pending symbol id :
  id <> 0 -> id ∉ pending ->
  table_ok subs (id :: pending) -> table_ok (<[symbol := id]> subs) pending.
Proof.
  intros Hnz Hfresh [H1 H2]. split.
  - intros s id' Hl. apply lookup_insert_Some in Hl as [[_ <-] | [_ Hl]].
    + now split.
    + destruct (H1 _ _ Hl) as [? Hn]. split; [assumption |].
      intros Hin. apply Hn. now right.
  - intros s1 s2 id' Hl1 Hl2.
    apply lookup_insert_Some in Hl1 as [[<- <-] | [Hne1 Hl1]];
      apply lookup_insert_Some in Hl2 as [[<- Heq] | [Hne2 Hl2]];
      try reflexivity; try subst id'.
    + destruct (H1 _ _ Hl2) as [_ Hn]. exfalso. apply Hn. now left.
    + destruct (H1 _ _ Hl1) as [_ Hn]. exfalso. apply Hn. now left.
    + eauto.
Qed.

Lemma table_ok_step a act rest :
  NoDup (generated_ids (act :: rest)) ->
  (forall id, id ∈ generated_ids (act :: rest) -> id <> 0) ->
  table_ok (subscriptions a) (generated_ids (act :: rest)) ->
  table_ok (subscriptions (step a act)) (generated_ids rest).
Proof.
  intros Hnd Hnz Hok. rewrite step_subscriptions.
  destruct act; try exact Hok.
  - simpl in *. apply NoDup_cons in Hnd as [Hfresh _].
    apply table_ok_insert; [apply Hnz; now left | exact Hfresh | exact Hok].
  - rewrite unsubscribeFromTicks_subscriptions. simpl in *.
    destruct (subscriptions a !! symbol); [| exact Hok].
    destruct (JS.truthy_int z); [| exact Hok].
    now apply table_ok_delete.
Qed.

Lemma table_ok_run acts a :
  NoDup (generated_ids acts) ->
  (forall id, id ∈ generated_ids acts -> id <> 0) ->
  table_ok (subscriptions a) (generated_ids acts) ->
  table_ok (subscriptions (run a acts)) [].
Proof.
  revert a. induction acts as [|act rest IH]; intros a Hnd Hnz Hok.
  - exact Hok.
  - simpl. apply IH.
    + destruct act; simpl in Hnd; try exact Hnd.
      now apply NoDup_cons in Hnd as [_ ?].
    + intros id Hin. apply Hnz.
      destruct act; simpl; try exact Hin. now right.
    + now apply table_ok_step.
Qed.

End SubscriptionFacts.

(** C3, as stated, fails on each of its three parts.  Ids are random
    draws that nothing compares with the table, so two symbols can carry
    the same id; [unsubscribeFromTicks] tests the stored id for
    truthiness, so an entry whose id is 0 stays in the table; and a
    second [subscribeToTicks] for a subscribed symbol stores a new id
    and sends a second request. *)
Lemma subscription_table_claim_fails :
  ~ (forall acts, distinct_ids (Deriv.subscriptions (Deriv.run (Deriv.new None) acts)))
  /\ ~ (forall acts symbol,
          Deriv.subscriptions
            (Deriv.run (Deriv.new None)
               (acts ++ [Deriv.call_unsubscribeFromTicks symbol])) !! symbol
          = None)
  /\ ~ (forall a u symbol id,
          Deriv.subscriptions a !! symbol = Some id ->
          Deriv.subscribeToTicks u symbol a = a).
Proof.
  split; [| split].
  - intros H.
    specialize (H [ Deriv.call_subscribeToTicks draw_a "frxEURUSD";
                    Deriv.call_subscribeToTicks draw_b "frxGBPUSD" ]
                  "frxEURUSD" "frxGBPUSD" 500000000).
    discriminate H; vm_compute; reflexivity.
  - intros H.
    specialize (H [Deriv.call_subscribeToTicks draw_low "frxEURUSD"] "frxEURUSD").
    vm_compute in H. discriminate.
  - intros H.
    pose (a := Deriv.run api_connected
                 [Deriv.call_subscribeToTicks draw_a "frxEURUSD"]).
    assert (Ha : Deriv.subscriptions a !! "frxEURUSD" = Some 500000000)
      by (vm_compute; reflexivity).
    specialize (H a draw_low "frxEURUSD" _ Ha).
    apply (f_equal (fun x => Deriv.subscriptions x !! "frxEURUSD")) in H.
    vm_compute in H. discriminate.
Qed.

(** C3, amended: take any run of calls and events on a new connector in
    which the correlation ids generated by the subscribe calls are
    pairwise distinct and non-zero.  Then the table never holds the same
    id for two symbols, and [unsubscribeFromTicks symbol] leaves no
    entry for [symbol].  A subscribe for a symbol, subscribed already or
    not, stores the newly generated id for it and, when the transport
    behind the handle is open, sends one more [ticks] request with that
    id. *)
Theorem subscription_table_with_distinct_ids token acts :
  NoDup (generated_ids acts) ->
  (forall id, id ∈ generated_ids acts -> id <> 0) ->
  let b := Deriv.run (Deriv.new token) acts in
  distinct_ids (Deriv.subscriptions b)
  /\ (forall symbol,
        Deriv.subscriptions
          (Deriv.step b (Deriv.call_unsubscribeFromTicks symbol)) !! symbol
        = None)
  /\ (forall u symbol,
        Deriv.subscriptions
          (Deriv.step b (Deriv.call_subscribeToTicks u symbol)) !! symbol
        = Some (Deriv.generateRequestId u))
  /\ (forall u symbol i t,
        Deriv.ws b = Some i -> Deriv.transports b !! i = Some t ->
        Deriv.readyState t = Deriv.OPEN ->
        Deriv.outbox
          <$> Deriv.transports
                (Deriv.step b (Deriv.call_subscribeToTicks u symbol)) !! i
        = Some (Deriv.outbox t
                ++ [Deriv.Ticks symbol (Deriv.generateRequestId u)])).
Proof.
  intros Hnd Hnz b.
  assert (Hok : table_ok (Deriv.subscriptions b) []).
  { apply table_ok_run; [exact Hnd | exact Hnz |].
    split; [intros s id Hl | intros s1 s2 id Hl]; simpl in Hl;
      rewrite lookup_empty in Hl; discriminate. }
  split; [exact (proj2 Hok) |]. split; [| split].
  - intros symbol. rewrite step_subscriptions, unsubscribeFromTicks_subscriptions.
    destruct (Deriv.subscriptions b !! symbol) as [id|] eqn:Hl; [| exact Hl].
    destruct (proj1 Hok _ _ Hl) as [Hne _].
    unfold JS.truthy_int. replace (id =? 0) with false
      by (symmetry; now apply Z.eqb_neq).
    simpl. apply lookup_delete_eq.
  - intros u symbol. rewrite step_subscriptions. apply lookup_insert_eq.
  - intros u symbol i t Hws Ht Hopen. unfold Deriv.step. simpl.
    unfold Deriv.subscribeToTicks, Deriv.send. simpl. rewrite Hws, Ht.
    rewrite decide_True by exact Hopen. simpl.
    rewrite list_lookup_insert_eq; [reflexivity |].
    apply lookup_lt_is_Some. eauto.
Qed.

Lemma subscription_table_with_distinct_ids_witness :
  Deriv.subscriptions
    (Deriv.step
       (Deriv.run (Deriv.new (Some "token"))
          [ Deriv.call_connect; Deriv.ws_open 0;
            Deriv.call_subscribeToTicks draw_a "frxEURUSD" ])
       (Deriv.call_unsubscribeFromTicks "frxEURUSD")) !! "frxEURUSD"
  = None.
Proof.
  refine (proj1 (proj2 (subscription_table_with_distinct_ids (Some "token")
            [ Deriv.call_connect; Deriv.ws_open 0;
              Deriv.call_subscribeToTicks draw_a "frxEURUSD" ] _ _)) "frxEURUSD").
  - vm_compute. apply NoDup_cons. split; [apply not_elem_of_nil | apply NoDup_nil_2].
  - intros id Hin. vm_compute in Hin.
    apply list_elem_of_singleton in Hin. subst id. discriminate.
Defined.

(* ===================================================================== *)
(** ** Properties of the client registry *)
(* ===================================================================== *)

(** C2, as stated, fails: [connectClient] for a client that is
    registered and connected returns [true] and puts a new connector in
    the registry. *)
Lemma connectClient_twice_replaces :
  ~ (forall cm account ref,
        Manager.clientAPIs cm !! Manager.ca_userId account = Some ref ->
        Manager.isClientConnected cm (Manager.ca_userId account) = true ->
        (exists msg, (Manager.connectClient account cm).1 = Thrown msg)
        /\ Manager.clientAPIs (Manager.connectClient account cm).2
             !! Manager.ca_userId account = Some ref).
Proof.
  intros H.
  destruct (H registry_connected demo_account 0%nat) as [[msg Hmsg] _];
    [vm_compute; reflexivity | vm_compute; reflexivity |].
  vm_compute in Hmsg. discriminate.
Qed.

(** C2, amended: [connectClient] does not look at the registry.  It
    always returns [true], constructs a connector with the account's
    token, starts connecting it, and stores it under the client id; a
    connector that was registered under that id before stays on the heap
    as it was (it is not disconnected) and is no longer the registered
    one. *)
Theorem connectClient_always_registers cm account :
  let cm' := (Manager.connectClient account cm).2 in
  (Manager.connectClient account cm).1 = Returned true
  /\ Manager.heap cm'
     = Manager.heap cm
       ++ [ {| Manager.owner := Manager.ca_userId account;
               Manager.api :=
                 Deriv.connect (Deriv.new (Some (Manager.ca_apiToken account))) |} ]
  /\ Manager.clientAPIs cm' !! Manager.ca_userId account
     = Some (length (Manager.heap cm))
  /\ Manager.activeConnections cm' = Manager.activeConnections cm
  /\ (forall ref s,
        Manager.clientAPIs cm !! Manager.ca_userId account = Some ref ->
        Manager.heap cm !! ref = Some s ->
        Manager.heap cm' !! ref = Some s
        /\ Manager.clientAPIs cm' !! Manager.ca_userId account <> Some ref).
Proof.
  simpl. split; [reflexivity |]. split; [reflexivity |].
  split; [apply lookup_insert_eq |]. split; [reflexivity |].
  intros ref s _ Hs. split.
  - now apply lookup_app_l_Some.
  - rewrite lookup_insert_eq. intros [= <-].
    apply lookup_lt_Some in Hs. lia.
Qed.

Lemma connectClient_always_registers_witness :
  Manager.heap (Manager.connectClient demo_account registry_connected).2 !! 0%nat
  = Manager.heap registry_connected !! 0%nat
  /\ Manager.clientAPIs (Manager.connectClient demo_account registry_connected).2
       !! 7 <> Some 0%nat.
Proof.
  destruct (Manager.heap registry_connected !! 0%nat) as [s|] eqn:Hs;
    [| vm_compute in Hs; discriminate].
  refine (proj2 (proj2 (proj2 (proj2
            (connectClient_always_registers registry_connected demo_account))))
            0%nat s _ Hs).
  vm_compute. reflexivity.
Defined.

(** The registry side of an explicit disconnect: [disconnectClient]
    removes client 7 from both maps, but once the transport has closed,
    the reconnect timer has fired and the new transport has opened, the
    ['connected'] listener marks the client active again. *)
Lemma disconnected_client_is_marked_active_again :
  let cm :=
    Manager.ws_open 0 1
      (Manager.timeout 0 0
         (Manager.ws_closed 0 0
            (Manager.disconnectClient 7 registry_connected).2)) in
  Manager.clientAPIs cm !! 7 = None
  /\ Manager.isClientConnected cm 7 = true.
Proof. vm_compute. split; reflexivity. Qed.

(* ===================================================================== *)
(** ** Placing an order without a credential *)
(* ===================================================================== *)

Lemma placeTrade_no_token options a :
  JS.truthy_str (Deriv.apiToken a) = false ->
  Deriv.placeTrade options a = (Thrown Deriv.token_required, a).
Proof. intros H. unfold Deriv.placeTrade. now rewrite H. Qed.

(** In demo mode, with no token in the environment, [POST /api/trades]
    does not call [placeTrade] at all: it stores the trade and answers
    200. *)
Lemma post_trades_without_env_token now validatedData srv market :
  Storage.markets (Routes.storage srv) !! Storage.it_symbol validatedData
  = Some market ->
  exists trade,
    (Routes.post_trades now None (Some validatedData) srv).1
    = Routes.json_trade 200 trade
    /\ Routes.derivAPI (Routes.post_trades now None (Some validatedData) srv).2
       = Routes.derivAPI srv
    /\ Storage.trades
         (Routes.storage (Routes.post_trades now None (Some validatedData) srv).2)
       !! Storage.currentTradeId (Routes.storage srv)
       = Some (Storage.patch_trade trade
                 {| Storage.tp_id := None; Storage.tp_userId := None;
                    Storage.tp_symbol := None; Storage.tp_tradeType := None;
                    Storage.tp_contractType := None; Storage.tp_stake := None;
                    Storage.tp_entryPrice := None; Storage.tp_exitPrice := None;
                    Storage.tp_duration := None; Storage.tp_durationType := None;
                    Storage.tp_status := None; Storage.tp_payout := Some None;
                    Storage.tp_profit := None; Storage.tp_derivTradeId := None;
                    Storage.tp_createdAt := None; Storage.tp_closedAt := None |}).
Proof.
  intros Hm. unfold Routes.post_trades. rewrite Hm.
  rewrite andb_false_r. simpl.
  eexists. split; [reflexivity |]. split; [reflexivity |].
  apply lookup_insert_eq.
Qed.

(** C8: [placeTrade] on a connector whose token is missing (or empty)
    throws "API token required for trading" and leaves the connector as
    it was, so nothing is sent.  Both callers pass the failure on
    before they reach [createTrade]: [placeTradeForClient] rethrows it,
    and [POST /api/trades], when it calls [placeTrade], answers 500; in
    either case the storage is unchanged, so no Trade record is
    created. *)
Theorem placeTrade_without_token_creates_no_trade :
  (forall options a,
      JS.truthy_str (Deriv.apiToken a) = false ->
      Deriv.placeTrade options a = (Thrown Deriv.token_required, a))
  /\ (forall now request cm st ref s,
        Manager.clientAPIs cm !! Manager.tr_clientId request = Some ref ->
        Manager.heap cm !! ref = Some s ->
        JS.truthy_str (Deriv.apiToken (Manager.api s)) = false ->
        (exists msg,
            (Manager.placeTradeForClient now request (cm, st)).1 = Thrown msg
            /\ (Manager.isClientConnected cm (Manager.tr_clientId request) = true ->
                msg = Deriv.token_required))
        /\ (Manager.placeTradeForClient now request (cm, st)).2.2 = st)
  /\ (forall now env_token validatedData srv,
        JS.truthy_str (Deriv.apiToken (Routes.derivAPI srv)) = false ->
        Deriv.isConnected (Routes.derivAPI srv) = true ->
        JS.truthy_str env_token = true ->
        (exists status message,
            (Routes.post_trades now env_token (Some validatedData) srv).1
            = Routes.json_message status message
            /\ (status = 404 \/ status = 500))
        /\ Routes.storage
             (Routes.post_trades now env_token (Some validatedData) srv).2
           = Routes.storage srv).
Proof.
  split; [exact placeTrade_no_token |]. split.
  - intros now request cm st ref s Href Hs Htok.
    unfold Manager.placeTradeForClient. rewrite Href.
    destruct (Manager.isClientConnected cm _); simpl.
    + rewrite Hs, (placeTrade_no_token _ _ Htok). simpl.
      split; [| reflexivity]. eexists. split; [reflexivity | reflexivity].
    + split; [| reflexivity]. eexists. split; [reflexivity | discriminate].
  - intros now env_token validatedData srv Htok Hconn Henv.
    unfold Routes.post_trades.
    destruct (Storage.markets (Routes.storage srv) !! _) as [market|].
    + rewrite Hconn, Henv. simpl. rewrite (placeTrade_no_token _ _ Htok).
      simpl. split; [| reflexivity]. eauto.
    + simpl. split; [| reflexivity]. eauto.
Qed.

Lemma placeTrade_without_token_creates_no_trade_witness :
  (Manager.placeTradeForClient 50 demo_request (registry_no_token, store_open)).2.2
  = store_open.
Proof.
  destruct (Manager.heap registry_no_token !! 0%nat) as [s|] eqn:Hs;
    [| vm_compute in Hs; discriminate].
  refine (proj2 (proj1 (proj2 placeTrade_without_token_creates_no_trade)
                   50 demo_request registry_no_token store_open 0%nat s _ Hs _)).
  - vm_compute. reflexivity.
  - vm_compute in Hs. injection Hs as <-. reflexivity.
Defined.

(* ===================================================================== *)
(** ** The tick scenario *)
(* ===================================================================== *)

Lemma quote_toString : JS.toString (JS.of_decimal false 10855 (-4)) = "1.0855".
Proof. vm_compute. reflexivity. Qed.

Lemma on_tick_eurusd now now' epoch srv :
  Routes.on_tick now now'
    {| Deriv.tick_symbol := "frxEURUSD";
       Deriv.tick_quote := JS.of_decimal false 10855 (-4);
       Deriv.tick_epoch := epoch |} srv
  = Routes.broadcast (Routes.price_update [eurusd_update now])
      (Routes.with_storage
         (Storage.updateMarket now' "frxEURUSD"
            {| Storage.mp_id := None; Storage.mp_symbol := Some "frxEURUSD";
               Storage.mp_name := None; Storage.mp_category := None;
               Storage.mp_currentPrice := Some (Some "1.0855");
               Storage.mp_change := None; Storage.mp_changePercent := None;
               Storage.mp_high := None; Storage.mp_low := None;
               Storage.mp_volume := None; Storage.mp_isActive := None;
               Storage.mp_lastUpdate := Some (Some now) |}
            (Routes.storage srv)).2 srv).
Proof.
  unfold Routes.on_tick. cbn [Deriv.tick_symbol Deriv.tick_quote
    Routes.mu_symbol Routes.mu_currentPrice Routes.mu_lastUpdate].
  rewrite quote_toString.
  now destruct (Storage.updateMarket _ _ _ _).
Qed.

(** The price the claim C7 expects is not the one stored: the handler
    renders the quote with [toString], which gives the shortest decimal
    that reads back as the same Number, so the stored price is
    ["1.0855"], not ["1.08550"]. *)
Lemma tick_price_is_not_zero_padded :
  ~ (forall srv now now' i epoch market,
        Deriv.enabled (Routes.derivAPI srv) (Deriv.ws_message i (eurusd_tick epoch))
        = true ->
        Storage.markets (Routes.storage srv) !! "frxEURUSD" = Some market ->
        Storage.m_currentPrice
          <$> Storage.markets
                (Routes.storage
                   (Routes.ws_message now now' i (eurusd_tick epoch) srv))
              !! "frxEURUSD"
        = Some (Some "1.08550")).
Proof.
  intros H.
  destruct (Storage.markets (Routes.storage demo_server) !! "frxEURUSD")
    as [market|] eqn:Hm; [| vm_compute in Hm; discriminate].
  specialize (H demo_server 100 101 0%nat 1700000000 market eq_refl Hm).
  vm_compute in H. discriminate.
Qed.

(** What the tick handler does for every server state: when the
    connector receives the tick [{symbol: "frxEURUSD", quote: 1.0855}]
    on an open transport and the store holds the market frxEURUSD, the
    market's [currentPrice] becomes the string ["1.0855"] (and only its
    symbol, price and update time change), and one [price_update] whose
    data is exactly the one update [{symbol, currentPrice: "1.0855",
    lastUpdate}] is appended to what every browser client with an open
    socket has received; clients whose socket is not open receive
    nothing. *)
Theorem tick_updates_price_and_broadcasts srv now now' i epoch market :
  Deriv.enabled (Routes.derivAPI srv) (Deriv.ws_message i (eurusd_tick epoch))
  = true ->
  Storage.markets (Routes.storage srv) !! "frxEURUSD" = Some market ->
  let srv' := Routes.ws_message now now' i (eurusd_tick epoch) srv in
  (exists market',
      Storage.markets (Routes.storage srv') !! "frxEURUSD" = Some market'
      /\ Storage.m_currentPrice market' = Some "1.0855"
      /\ Storage.m_symbol market' = "frxEURUSD"
      /\ Storage.m_lastUpdate market' = Some now'
      /\ Storage.m_id market' = Storage.m_id market
      /\ Storage.m_name market' = Storage.m_name market
      /\ Storage.m_category market' = Storage.m_category market
      /\ Storage.m_change market' = Storage.m_change market
      /\ Storage.m_changePercent market' = Storage.m_changePercent market
      /\ Storage.m_high market' = Storage.m_high market
      /\ Storage.m_low market' = Storage.m_low market
      /\ Storage.m_volume market' = Storage.m_volume market
      /\ Storage.m_isActive market' = Storage.m_isActive market)
  /\ (forall j client,
        Routes.clients srv !! j = Some client ->
        Routes.clients srv' !! j
        = Some (if decide (Routes.ob_readyState client = Deriv.OPEN)
                then {| Routes.ob_readyState := Deriv.OPEN;
                        Routes.received :=
                          Routes.received client
                          ++ [Routes.price_update [eurusd_update now]] |}
                else client))
  /\ length (Routes.clients srv') = length (Routes.clients srv).
Proof.
  intros Hen Hm srv'.
  assert (Hsrv' : srv'
    = Routes.on_tick now now'
        {| Deriv.tick_symbol := "frxEURUSD";
           Deriv.tick_quote := JS.of_decimal false 10855 (-4);
           Deriv.tick_epoch := epoch |}
        (Routes.with_derivAPI
           (Deriv.on_message (eurusd_tick epoch) (Routes.derivAPI srv)) srv)).
  { unfold srv', Routes.ws_message. rewrite Hen. reflexivity. }
  rewrite Hsrv', on_tick_eurusd. clear Hsrv' srv'.
  unfold Storage.updateMarket. cbn [Routes.storage Routes.with_derivAPI].
  rewrite Hm. simpl.
  split; [| split].
  - eexists. split; [apply lookup_insert_eq |]. repeat split.
  - intros j client Hj. rewrite list_lookup_fmap, Hj. simpl.
    unfold Routes.deliver. case_decide as Hopen; [| reflexivity].
    now rewrite Hopen.
  - apply length_fmap.
Qed.

Lemma tick_updates_price_and_broadcasts_witness :
  Routes.clients (Routes.ws_message 100 101 0 (eurusd_tick 1700000000) demo_server)
    !! 0%nat
  = Some {| Routes.ob_readyState := Deriv.OPEN;
            Routes.received := [Routes.price_update [eurusd_update 100]] |}.
Proof.
  destruct (Storage.markets (Routes.storage demo_server) !! "frxEURUSD")
    as [market|] eqn:Hm; [| vm_compute in Hm; discriminate].
  exact (proj1 (proj2 (tick_updates_price_and_broadcasts demo_server 100 101
                         0%nat 1700000000 market eq_refl Hm)) 0%nat
           {| Routes.ob_readyState := Deriv.OPEN; Routes.received := [] |}
           eq_refl).
Defined.

(** C7, evaluated on [demo_server]: the tick
    [{symbol: "frxEURUSD", quote: 1.0855}] leaves ["1.0855"] as the
    current price of frxEURUSD, where the claim has ["1.08550"]; the
    rest of the claim holds, one [price_update] with that one update
    reaches the open client and the closing client gets nothing.  The
    simulated update path of the same file renders prices with
    [toFixed(5)], which gives the five decimals the claim expects. *)
Lemma tick_scenario_stores_unpadded_price :
  let srv' := Routes.ws_message 100 101 0 (eurusd_tick 1700000000) demo_server in
  Storage.m_currentPrice
    <$> Storage.markets (Routes.storage srv') !! "frxEURUSD"
  = Some (Some "1.0855")
  /\ Some (Some "1.0855") <> Some (Some "1.08550")
  /\ JS.toFixed (JS.of_decimal false 10855 (-4)) 5 = "1.08550"
  /\ Routes.clients srv'
     = [ {| Routes.ob_readyState := Deriv.OPEN;
            Routes.received := [Routes.price_update [eurusd_update 100]] |};
         {| Routes.ob_readyState := Deriv.CLOSING; Routes.received := [] |} ].
Proof.
  vm_compute. repeat split. discriminate.
Qed.

(* ===================================================================== *)
(** ** Further properties of MemStorage *)
(* ===================================================================== *)

Section FreshIds.
Import Storage.

Lemma ids_below_new now : ids_below (new now).
Proof.
  split; intros id x H; simpl in H; rewrite lookup_empty in H; discriminate.
Qed.

Lemma ids_below_perform c st : ids_below st -> ids_below (perform c st).
Proof.
  intros [Hu Ht]. destruct c; simpl.
  - split; simpl; [| exact Ht].
    intros id user. rewrite lookup_insert. case_decide.
    + intros _. lia.
    + intros H'. specialize (Hu _ _ H'). lia.
  - unfold updateUserBalance.
    destruct (users st !! userId) as [user|] eqn:Hl; simpl; [| now split].
    split; simpl; [| exact Ht].
    intros id user'. rewrite lookup_insert. case_decide as Hid.
    + intros _. subst id. eauto.
    + apply Hu.
  - unfold updateMarket. destruct (markets st !! symbol); now split.
  - now split.
  - split; simpl; [exact Hu |].
    intros id trade. rewrite lookup_insert. case_decide.
    + intros _. lia.
    + intros H'. specialize (Ht _ _ H'). lia.
  - unfold updateTrade.
    destruct (trades st !! tradeId) as [trade|] eqn:Hl; simpl; [| now split].
    split; simpl; [exact Hu |].
    intros id trade'. rewrite lookup_insert. case_decide as Hid.
    + intros _. subst id. eauto.
    + apply Ht.
  - unfold closeTrade.
    destruct (trades st !! tradeId) as [trade|] eqn:Hl; simpl; [| now split].
    split; simpl; [exact Hu |].
    intros id trade'. rewrite lookup_insert. case_decide as Hid.
    + intros _. subst id. eauto.
    + apply Ht.
Qed.

Lemma ids_below_trade_free st :
  ids_below st -> trades st !! currentTradeId st = None.
Proof.
  intros [_ Ht]. destruct (trades st !! currentTradeId st) eqn:Hl; [| reflexivity].
  specialize (Ht _ _ Hl). lia.
Qed.

Lemma ids_below_user_free st :
  ids_below st -> users st !! currentUserId st = None.
Proof.
  intros [Hu _]. destruct (users st !! currentUserId st) eqn:Hl; [| reflexivity].
  specialize (Hu _ _ Hl). lia.
Qed.

End FreshIds.

(** X1: the id counters stay ahead of the stored ids.  The property
    holds in a new store and is kept by every storage call; under it
    [createTrade] and [createUser] store their row under an id that was
    free, so no stored trade or user is overwritten (each is still
    found, unchanged) and the map grows by exactly one row, which is
    found under the id the call returns. *)
Theorem created_ids_are_fresh :
  (forall now, ids_below (Storage.new now))
  /\ (forall c st, ids_below st -> ids_below (Storage.perform c st))
  /\ (forall now insertTrade st,
        ids_below st ->
        exists trade,
          (Storage.createTrade now insertTrade st).1 = Returned trade
          /\ Storage.t_id trade = Storage.currentTradeId st
          /\ Storage.trades st !! Storage.t_id trade = None
          /\ Storage.trades (Storage.createTrade now insertTrade st).2
               !! Storage.t_id trade = Some trade
          /\ (forall id old, Storage.trades st !! id = Some old ->
                Storage.trades (Storage.createTrade now insertTrade st).2 !! id
                = Some old)
          /\ size (Storage.trades (Storage.createTrade now insertTrade st).2)
             = S (size (Storage.trades st)))
  /\ (forall now insertUser st,
        ids_below st ->
        exists user,
          (Storage.createUser now insertUser st).1 = Returned user
          /\ Storage.u_id user = Storage.currentUserId st
          /\ Storage.users st !! Storage.u_id user = None
          /\ Storage.users (Storage.createUser now insertUser st).2
               !! Storage.u_id user = Some user
          /\ (forall id old, Storage.users st !! id = Some old ->
                Storage.users (Storage.createUser now insertUser st).2 !! id
                = Some old)
          /\ size (Storage.users (Storage.createUser now insertUser st).2)
             = S (size (Storage.users st))).
Proof.
  split; [exact ids_below_new |]. split; [exact ids_below_perform |]. split.
  - intros now insertTrade st Hst.
    pose proof (ids_below_trade_free st Hst) as Hfree.
    eexists. split; [reflexivity |]. simpl.
    split; [reflexivity |]. split; [exact Hfree |].
    split; [apply lookup_insert_eq |]. split.
    + intros id old Hold. rewrite lookup_insert_ne; [exact Hold |].
      intros <-. rewrite Hfree in Hold. discriminate.
    + now apply map_size_insert_None.
  - intros now insertUser st Hst.
    pose proof (ids_below_user_free st Hst) as Hfree.
    eexists. split; [reflexivity |]. simpl.
    split; [reflexivity |]. split; [exact Hfree |].
    split; [apply lookup_insert_eq |]. split.
    + intros id old Hold. rewrite lookup_insert_ne; [exact Hold |].
      intros <-. rewrite Hfree in Hold. discriminate.
    + now apply map_size_insert_None.
Qed.

Lemma created_ids_are_fresh_witness :
  size (Storage.trades (Storage.createTrade 40 demo_order store_won).2)
  = S (size (Storage.trades store_won)).
Proof.
  destruct (proj1 (proj2 (proj2 created_ids_are_fresh)) 40 demo_order store_won)
    as (trade & _ & _ & _ & _ & _ & Hsize).
  - apply (proj1 (proj2 created_ids_are_fresh)
             (Storage.call_closeTrade 20 1 "1.09000" "185.00" "85.00")).
    apply (proj1 (proj2 created_ids_are_fresh)
             (Storage.call_createTrade 10 demo_order)).
    apply (proj1 created_ids_are_fresh).
  - exact Hsize.
Defined.

Section ProfitSign.

Lemma round_aux_negative mx ex lx :
  JS.gt (binary_round_aux JS.prec JS.emax true mx ex lx) JS.pos_zero = false.
Proof.
  unfold binary_round_aux.
  destruct (shr_fexp _ _ mx ex lx) as [mrs' e'].
  destruct (shr_fexp _ _ _ e' loc_Exact) as [mrs'' e''].
  destruct (shr_m mrs''); [reflexivity | | reflexivity].
  now destruct (_ <=? _).
Qed.

Lemma of_decimal_negative m e :
  JS.gt (JS.of_decimal true m e) JS.pos_zero = false.
Proof.
  unfold JS.of_decimal. destruct m as [|p]; [reflexivity |].
  destruct (0 <=? e) eqn:He.
  - apply Z.leb_le in He.
    assert (Hpos : 0 < Z.pos p * 10 ^ e) by (apply Z.mul_pos_pos; lia).
    destruct (Z.pos p * 10 ^ e) as [|q|q] eqn:Hq; try lia.
    simpl. unfold binary_round.
    destruct (shl_align _ _ _) as [mz ez]. apply round_aux_negative.
  - unfold SFdiv.
    destruct (SFdiv_core_binary _ _ _ _ _ _) as [[mz ez] lz].
    apply round_aux_negative.
Qed.

Lemma unsigned_literal_negative s :
  JS.gt (JS.unsigned_literal true s) JS.pos_zero = false.
Proof.
  unfold JS.unsigned_literal. destruct (String.prefix _ _); [reflexivity |].
  destruct (JS.take_digits 0 0 s) as [[ip ilen] r1].
  destruct r1 as [|c r2].
  - destruct (Nat.eqb ilen 0); [reflexivity | apply of_decimal_negative].
  - destruct (Ascii.eqb c ".") eqn:Hc.
    + apply Ascii.eqb_eq in Hc. subst c.
      destruct (JS.take_digits ip 0 r2) as [[m flen] r3].
      destruct (_ && _)%bool; [reflexivity | apply of_decimal_negative].
    + assert (Hgen : JS.gt (if Nat.eqb ilen 0 then JS.NaN
                            else JS.of_decimal true ip
                                   (JS.exponent_part (String c r2)))
                       JS.pos_zero = false)
        by (destruct (Nat.eqb ilen 0); [reflexivity | apply of_decimal_negative]).
      destruct c as [[] [] [] [] [] [] [] []]; try exact Hgen; discriminate.
Qed.

Lemma parseFloat_minus r :
  JS.gt (JS.parseFloat (String "-" r)) JS.pos_zero = false.
Proof.
  unfold JS.parseFloat. change (JS.trim_start (String "-" r)) with (String "-" r).
  apply unsigned_literal_negative.
Qed.

End ProfitSign.

(** X2: a profit written with a leading minus sign never closes a trade
    as won.  Whatever follows the sign (digits, an exponent, "Infinity",
    or text that is not a number), [closeTrade] stores the status
    ["lost"] for a trade that is in the store. *)
Theorem closeTrade_minus_profit_is_lost now st id exitPrice payout rest trade :
  Storage.getTrade st id = Some trade ->
  Storage.t_status
    <$> Storage.getTrade
          (Storage.closeTrade now id exitPrice payout (String "-" rest) st).2 id
  = Some "lost".
Proof.
  intros H. rewrite (getTrade_closeTrade _ _ _ _ _ _ _ H). simpl.
  now rewrite parseFloat_minus.
Qed.

Lemma closeTrade_minus_profit_is_lost_witness :
  Storage.t_status
    <$> Storage.getTrade
          (Storage.closeTrade 20 1 "1.07" "0" "-1e999" store_open).2 1
  = Some "lost".
Proof.
  destruct (Storage.getTrade store_open 1) as [trade|] eqn:Ht;
    [| vm_compute in Ht; discriminate].
  exact (closeTrade_minus_profit_is_lost 20 store_open 1 "1.07" "0" "1e999"
           trade Ht).
Defined.

(* ===================================================================== *)
(** ** Further properties of the connector *)
(* ===================================================================== *)

Section SendFacts.
Import Deriv.

Lemma send_sent data a i t :
  ws a = Some i -> transports a !! i = Some t -> readyState t = OPEN ->
  send data a
  = with_transports
      (<[i := {| readyState := OPEN; outbox := outbox t ++ [data];
                 opened := opened t; errorEmitted := errorEmitted t |}]>
         (transports a)) a.
Proof.
  intros Hws Ht Hopen. unfold send. rewrite Hws, Ht.
  now rewrite decide_True.
Qed.

Lemma send_open_handle data a i out :
  open_handle a i out -> open_handle (send data a) i (out ++ [data]).
Proof.
  intros (Hws & t & Ht & Hopen & Hout).
  rewrite (send_sent _ _ _ _ Hws Ht Hopen).
  split; [exact Hws |]. simpl. eexists. split.
  - apply list_lookup_insert_eq. eapply lookup_lt_Some; eauto.
  - simpl. now rewrite Hout.
Qed.

Lemma send_dropped data a :
  no_open_handle a -> send data a = log log_not_connected a.
Proof.
  unfold no_open_handle, send, state_of. destruct (ws a) as [i|]; [| reflexivity].
  destruct (transports a !! i) as [t|]; [| reflexivity]. simpl.
  intros H. rewrite decide_False; [reflexivity |]. congruence.
Qed.

Lemma no_open_handle_connect a : no_open_handle (connect a).
Proof.
  unfold no_open_handle, connect, state_of. simpl.
  rewrite lookup_app_r by lia. now rewrite Nat.sub_diag.
Qed.

Lemma send_ws data a : ws (send data a) = ws a.
Proof.
  unfold send. destruct (ws a) as [i|] eqn:Hws; [| exact Hws].
  destruct (transports a !! i); [| exact Hws]. now case_decide.
Qed.

Lemma send_timers data a : timers (send data a) = timers a.
Proof.
  unfold send. destruct (ws a) as [i|]; [| reflexivity].
  destruct (transports a !! i); [| reflexivity]. now case_decide.
Qed.

Lemma send_length data a :
  length (transports (send data a)) = length (transports a).
Proof.
  unfold send. destruct (ws a) as [i|]; [| reflexivity].
  destruct (transports a !! i); [| reflexivity].
  case_decide; [| reflexivity]. simpl. apply length_insert.
Qed.

Lemma send_state_of data a j : state_of (send data a) j = state_of a j.
Proof.
  unfold send. destruct (ws a) as [i|]; [| reflexivity].
  destruct (transports a !! i) as [t|] eqn:Ht; [| reflexivity].
  case_decide as Hopen; [| reflexivity].
  unfold state_of. simpl. destruct (decide (i = j)) as [<- | Hne].
  - rewrite list_lookup_insert_eq by (apply lookup_lt_is_Some; eauto).
    rewrite Ht. simpl. now rewrite Hopen.
  - now rewrite list_lookup_insert_ne.
Qed.

End SendFacts.

(** X3: a request made while the handle has no open transport is
    dropped, and the caller is not told.  In that state (in particular
    right after [connect], whose new transport is still connecting)
    [subscribeToTicks] records the symbol in the table and
    [placeTrade], given a token, returns normally, yet no transport
    receives anything: the only trace is one console line. *)
Theorem requests_without_open_transport_are_dropped :
  (forall a, no_open_handle (Deriv.connect a))
  /\ (forall a u symbol,
        no_open_handle a ->
        let b := Deriv.subscribeToTicks u symbol a in
        Deriv.subscriptions b !! symbol = Some (Deriv.generateRequestId u)
        /\ Deriv.transports b = Deriv.transports a
        /\ Deriv.console b = Deriv.console a ++ [Deriv.log_not_connected])
  /\ (forall a options,
        no_open_handle a ->
        JS.truthy_str (Deriv.apiToken a) = true ->
        (Deriv.placeTrade options a).1 = Returned tt
        /\ Deriv.transports (Deriv.placeTrade options a).2 = Deriv.transports a
        /\ Deriv.console (Deriv.placeTrade options a).2
           = Deriv.console a ++ [Deriv.log_not_connected]).
Proof.
  split; [exact no_open_handle_connect |]. split.
  - intros a u symbol Hno. simpl. unfold Deriv.subscribeToTicks.
    rewrite send_dropped by exact Hno. simpl.
    split; [apply lookup_insert_eq | now split].
  - intros a options Hno Htok. unfold Deriv.placeTrade. rewrite Htok. simpl.
    rewrite send_dropped by exact Hno. now repeat split.
Qed.

Lemma requests_without_open_transport_are_dropped_witness :
  Deriv.transports
    (Deriv.subscribeToTicks draw_a "frxEURUSD" (Deriv.connect api_connected))
  = Deriv.transports (Deriv.connect api_connected).
Proof.
  refine (proj1 (proj2 (proj1 (proj2 requests_without_open_transport_are_dropped)
                          (Deriv.connect api_connected) draw_a "frxEURUSD" _))).
  apply (proj1 requests_without_open_transport_are_dropped).
Defined.

(** X4: subscribing and unsubscribing undo each other in the table.  On
    a connector whose handle is open, for a symbol that is not
    subscribed and a generated id other than zero, [subscribeToTicks]
    followed by [unsubscribeFromTicks] leaves the table as it was and
    sends exactly two requests, [ticks] and then [forget], carrying the
    same id. *)
Theorem subscribe_unsubscribe_round_trip a u symbol i out :
  open_handle a i out ->
  Deriv.subscriptions a !! symbol = None ->
  Deriv.generateRequestId u <> 0 ->
  let b := Deriv.unsubscribeFromTicks symbol (Deriv.subscribeToTicks u symbol a) in
  Deriv.subscriptions b = Deriv.subscriptions a
  /\ open_handle b i
       (out ++ [Deriv.Ticks symbol (Deriv.generateRequestId u)]
            ++ [Deriv.Forget (Deriv.generateRequestId u)]).
Proof.
  intros Hopen Hfree Hid b.
  set (id := Deriv.generateRequestId u) in *.
  set (a1 := Deriv.with_subscriptions (<[symbol := id]> (Deriv.subscriptions a)) a).
  assert (H1 : open_handle a1 i out) by exact Hopen.
  pose proof (send_open_handle (Deriv.Ticks symbol id) a1 i out H1) as H2.
  assert (Hb : b = Deriv.with_subscriptions
                     (delete symbol
                        (Deriv.subscriptions
                           (Deriv.send (Deriv.Forget id)
                              (Deriv.send (Deriv.Ticks symbol id) a1))))
                     (Deriv.send (Deriv.Forget id)
                        (Deriv.send (Deriv.Ticks symbol id) a1))).
  { unfold b, Deriv.unsubscribeFromTicks, Deriv.subscribeToTicks. fold id. fold a1.
    rewrite send_subscriptions. unfold a1 at 1. simpl.
    rewrite lookup_insert_eq. unfold JS.truthy_int.
    now replace (id =? 0) with false by (symmetry; now apply Z.eqb_neq). }
  rewrite Hb. split.
  - simpl. rewrite !send_subscriptions. unfold a1. simpl.
    now apply delete_insert_id.
  - rewrite app_assoc.
    exact (send_open_handle (Deriv.Forget id) _ i _ H2).
Qed.

Lemma subscribe_unsubscribe_round_trip_witness :
  Deriv.subscriptions
    (Deriv.unsubscribeFromTicks "frxEURUSD"
       (Deriv.subscribeToTicks draw_a "frxEURUSD" api_connected))
  = Deriv.subscriptions api_connected.
Proof.
  refine (proj1 (subscribe_unsubscribe_round_trip api_connected draw_a "frxEURUSD"
                   0%nat [Deriv.Authorize "token"] _ _ _)).
  - split; [reflexivity |]. eexists. repeat split.
  - reflexivity.
  - vm_compute. discriminate.
Defined.

Section AdvanceFacts.
Import Deriv.

Lemma advances_refl a : advances a a.
Proof. intros i r H. exists r. split; [exact H | lia]. Qed.

Lemma advances_trans a b c : advances a b -> advances b c -> advances a c.
Proof.
  intros Hab Hbc i r H. destruct (Hab i r H) as (r1 & H1 & Hle1).
  destruct (Hbc i r1 H1) as (r2 & H2 & Hle2). exists r2. split; [exact H2 | lia].
Qed.

Lemma advances_same a b :
  (forall j, state_of b j = state_of a j) -> advances a b.
Proof. intros Heq i r H. exists r. rewrite Heq. split; [exact H | lia]. Qed.

Lemma advances_set i r' a :
  (forall r, state_of a i = Some r -> (rank r <= rank r')%nat) ->
  advances a (set_readyState i r' a).
Proof.
  intros Hle j r H. destruct (decide (i = j)) as [<- | Hne].
  - exists r'. split; [apply state_of_set_eq; eauto | now apply Hle].
  - exists r. rewrite state_of_set_ne by exact Hne. split; [exact H | lia].
Qed.

Lemma advances_connect a : advances a (connect a).
Proof.
  intros i r H. exists r. split; [| lia].
  unfold state_of, connect in *. simpl.
  destruct (transports a !! i) as [t|] eqn:Ht; [| discriminate].
  now rewrite (lookup_app_l_Some _ _ _ _ Ht).
Qed.

Lemma advances_send data a : advances a (send data a).
Proof. apply advances_same. intros j. apply send_state_of. Qed.

Lemma authorize_state_of a j : state_of (authorize a) j = state_of a j.
Proof.
  unfold authorize. destruct (apiToken a) as [[|c r]|];
    rewrite ?send_state_of; reflexivity.
Qed.

Lemma advances_ws_close i a : advances a (ws_close i a).
Proof.
  unfold ws_close. destruct (state_of a i) as [r0|] eqn:Hs;
    [| apply advances_refl].
  destruct r0; try apply advances_refl;
    (apply advances_set; intros r Hr; rewrite Hs in Hr;
     injection Hr as <-; simpl; lia).
Qed.

Lemma advances_step a act : advances a (step a act).
Proof.
  unfold step. destruct (enabled a act) eqn:Hen; [| apply advances_refl].
  destruct act.
  - apply advances_connect.
  - unfold disconnect. destruct (ws a) as [i|]; [| apply advances_refl].
    apply (advances_trans _ (ws_close i a));
      [| apply advances_same; reflexivity].
    apply advances_ws_close.
  - unfold subscribeToTicks. apply advances_same. intros j.
    now rewrite send_state_of.
  - unfold unsubscribeFromTicks.
    destruct (subscriptions a !! symbol); [| apply advances_refl].
    destruct (JS.truthy_int z); [| apply advances_refl].
    apply advances_same. intros j. change (state_of (send (Forget z) a) j = state_of a j).
    apply send_state_of.
  - apply advances_send.
  - simpl in Hen. apply bool_decide_eq_true in Hen.
    eapply advances_trans.
    + apply (advances_set i OPEN a). intros r Hr. rewrite Hen in Hr.
      injection Hr as <-. simpl. lia.
    + apply advances_same. intros j. unfold on_open, id.
      destruct (JS.truthy_str _); rewrite ?authorize_state_of;
        exact (state_of_set_opened i _ j).
  - apply advances_same. intros j. unfold on_message, handleMessage.
    repeat case_decide; try reflexivity. now destruct (frame_error response).
  - apply (advances_trans _ (ws_close i a)); [apply advances_ws_close |].
    apply advances_same. intros j.
    exact (state_of_set_errorEmitted i (ws_close i a) j).
  - eapply advances_trans.
    + apply (advances_set i CLOSED a). intros r _. destruct r; simpl; lia.
    + apply advances_same. intros j. unfold on_close, handleReconnect.
      now destruct (_ <? _).
  - unfold fire_timer. destruct (timers a !! j); [| apply advances_refl].
    apply (advances_connect (with_timers (delete j (timers a)) a)).
Qed.

End AdvanceFacts.

Lemma advances_run acts a : advances a (Deriv.run a acts).
Proof.
  revert a. induction acts as [|act rest IH]; intros a.
  - apply advances_refl.
  - simpl. eapply advances_trans; [apply advances_step | apply IH].
Qed.

(** X5: transports only move forward.  Over any run of calls and
    runtime events, every transport the connector has constructed is
    still there and is in the same or a later state
    (connecting, open, closing, closed); in particular a transport that
    has closed is never used again, and the list of transports never
    gets shorter. *)
Theorem transports_only_move_forward a acts :
  advances a (Deriv.run a acts)
  /\ (forall i,
        Deriv.state_of a i = Some Deriv.CLOSED ->
        Deriv.state_of (Deriv.run a acts) i = Some Deriv.CLOSED)
  /\ (length (Deriv.transports a) <= length (Deriv.transports (Deriv.run a acts)))%nat.
Proof.
  pose proof (advances_run acts a) as Hadv.
  split; [exact Hadv |]. split.
  - intros i Hi. destruct (Hadv i _ Hi) as (r' & Hr' & Hle).
    rewrite Hr'. destruct r'; simpl in Hle; try lia. reflexivity.
  - destruct (length (Deriv.transports a)) as [|n] eqn:Hlen; [lia |].
    assert (Hsome : is_Some (Deriv.transports a !! n))
      by (apply lookup_lt_is_Some; lia).
    destruct Hsome as [t Ht].
    destruct (Hadv n (Deriv.readyState t)) as (r' & Hr' & _).
    { unfold Deriv.state_of. now rewrite Ht. }
    unfold Deriv.state_of in Hr'.
    destruct (Deriv.transports (Deriv.run a acts) !! n) as [t'|] eqn:Ht';
      [| discriminate].
    apply lookup_lt_Some in Ht'. lia.
Qed.

Section PolicyFacts.
Import Deriv.

Lemma within_policy_same a b :
  reconnectAttempts b = reconnectAttempts a ->
  timers b = timers a ->
  ws b = ws a ->
  length (transports b) = length (transports a) ->
  within_policy a -> within_policy b.
Proof.
  intros H1 H2 H3 H4 (Ha & Ht & Hw). unfold within_policy.
  rewrite H1, H2, H3, H4. now repeat split.
Qed.

Lemma within_policy_send data a : within_policy a -> within_policy (send data a).
Proof.
  apply within_policy_same;
    [apply send_reconnectAttempts | apply send_timers | apply send_ws
    | apply send_length].
Qed.

Lemma within_policy_connect a : within_policy a -> within_policy (connect a).
Proof.
  intros (Ha & Ht & Hw). split; [exact Ha |]. split; [exact Ht |].
  intros i. simpl. intros [= <-]. rewrite length_app. simpl. lia.
Qed.

Lemma within_policy_set i r a :
  within_policy a -> within_policy (set_readyState i r a).
Proof.
  apply within_policy_same; try reflexivity. simpl. apply length_alter.
Qed.

Lemma within_policy_ws_close i a :
  within_policy a -> within_policy (ws_close i a).
Proof.
  intros H. unfold ws_close. destruct (state_of a i) as [[]|]; try exact H;
    now apply within_policy_set.
Qed.

Lemma within_policy_handleReconnect a :
  within_policy a -> within_policy (handleReconnect a).
Proof.
  intros (Ha & Ht & Hw). unfold handleReconnect, maxReconnectAttempts.
  destruct (reconnectAttempts a <? 5) eqn:Hlt.
  - apply Z.ltb_lt in Hlt. split; [simpl; lia |]. split; [| exact Hw].
    simpl. apply Forall_app_2; [exact Ht |]. apply Forall_singleton.
    unfold reconnectDelay.
    replace (reconnectAttempts a + 1 - 1) with (reconnectAttempts a) by lia.
    assert (Hcase : reconnectAttempts a = 0 \/ reconnectAttempts a = 1
                    \/ reconnectAttempts a = 2 \/ reconnectAttempts a = 3
                    \/ reconnectAttempts a = 4) by lia.
    destruct Hcase as [-> | [-> | [-> | [-> | ->]]]]; simpl; lia.
  - now split.
Qed.

Lemma within_policy_step a act : within_policy a -> within_policy (step a act).
Proof.
  intros H. unfold step. destruct (enabled a act); [| exact H].
  destruct act.
  - now apply within_policy_connect.
  - unfold disconnect. destruct (ws a) as [i|] eqn:Hws; [| exact H].
    assert (H' : within_policy (ws_close i a))
      by now apply within_policy_ws_close.
    destruct H' as (Ha & Ht & _). split; [exact Ha |]. split; [exact Ht |].
    intros j. simpl. discriminate.
  - unfold subscribeToTicks. apply within_policy_send. exact H.
  - unfold unsubscribeFromTicks.
    destruct (subscriptions a !! symbol); [| exact H].
    destruct (JS.truthy_int z); [| exact H].
    apply (within_policy_same (send (Forget z) a)); try reflexivity.
    now apply within_policy_send.
  - now apply within_policy_send.
  - unfold on_open.
    assert (H1 : within_policy
                   (emit connected
                      (with_reconnectAttempts 0
                         (with_isConnected true
                            (log log_connected
                               (set_opened i (set_readyState i OPEN a))))))).
    { destruct (within_policy_set i OPEN a H) as (_ & Ht & Hw).
      split; [simpl; lia |]. split; [exact Ht |].
      intros j Hj. simpl in *. rewrite length_alter. now apply Hw. }
    simpl. destruct (JS.truthy_str _); [| exact H1].
    unfold authorize. simpl. destruct (apiToken a) as [[|c r]|];
      try exact H1. now apply within_policy_send.
  - unfold on_message, handleMessage.
    repeat case_decide; try exact H.
    destruct (frame_error response); [| exact H].
    now apply (within_policy_same a).
  - apply (within_policy_same (ws_close i a)); try reflexivity.
    + simpl. apply length_alter.
    + now apply within_policy_ws_close.
  - unfold on_close. apply within_policy_handleReconnect.
    apply (within_policy_same (set_readyState i CLOSED a)); try reflexivity.
    now apply within_policy_set.
  - unfold fire_timer. destruct (timers a !! j); [| exact H].
    apply within_policy_connect. destruct H as (Ha & Ht & Hw).
    split; [exact Ha |]. split; [| exact Hw]. simpl. now apply Forall_delete.
Qed.

Lemma within_policy_run acts a :
  within_policy a -> within_policy (run a acts).
Proof.
  revert a. induction acts as [|act rest IH]; intros a H; [exact H |].
  simpl. apply IH. now apply within_policy_step.
Qed.

End PolicyFacts.

(** X6: the policy bounds hold in every reachable state.  Whatever
    calls and runtime events a new connector goes through, in whatever
    order, its attempt counter stays between 0 and 5, every pending
    reconnect delay lies between 1000 and 16000 ms, and its handle, when
    set, points at a transport it has constructed. *)
Theorem policy_bounds_always_hold token acts :
  within_policy (Deriv.run (Deriv.new token) acts).
Proof.
  apply within_policy_run. split; [simpl; lia |].
  split; [apply Forall_nil_2 | discriminate].
Qed.

(* ===================================================================== *)
(** ** Further properties of the client registry *)
(* ===================================================================== *)

Section RegistryFacts.
Import Manager.

Lemma heap_update_api ref f cm s :
  heap cm !! ref = Some s ->
  heap (update_api ref f cm) !! ref = Some {| owner := owner s; api := f (api s) |}.
Proof. intros H. unfold update_api. simpl. now rewrite list_lookup_alter_eq, H. Qed.

Lemma placeTradeForClient_unregistered now request cm st :
  clientAPIs cm !! tr_clientId request = None ->
  placeTradeForClient now request (cm, st) = (Thrown not_connected, (cm, st)).
Proof. intros H. unfold placeTradeForClient. now rewrite H. Qed.

Lemma placeTradeForClient_inactive now request cm st :
  isClientConnected cm (tr_clientId request) = false ->
  placeTradeForClient now request (cm, st) = (Thrown not_connected, (cm, st)).
Proof.
  intros H. unfold placeTradeForClient. rewrite H.
  now destruct (clientAPIs cm !! tr_clientId request).
Qed.

End RegistryFacts.

(** X7: an order for a client that is not registered, or whose active
    flag is not set, is refused with "Client not connected to Deriv
    API"; the registry, its connectors and the storage are exactly as
    before, so nothing is sent and no trade is stored. *)
Theorem placeTradeForClient_not_connected now request cm st :
  Manager.clientAPIs cm !! Manager.tr_clientId request = None
  \/ Manager.isClientConnected cm (Manager.tr_clientId request) = false ->
  Manager.placeTradeForClient now request (cm, st)
  = (Thrown Manager.not_connected, (cm, st)).
Proof.
  intros [H | H];
    [now apply placeTradeForClient_unregistered
    | now apply placeTradeForClient_inactive].
Qed.

Lemma placeTradeForClient_not_connected_witness :
  Manager.placeTradeForClient 50 demo_request (Manager.new, store_open)
  = (Thrown Manager.not_connected, (Manager.new, store_open)).
Proof.
  apply placeTradeForClient_not_connected. left. reflexivity.
Defined.

(** X8: [disconnectClient] never throws.  Afterwards the client has no
    registered connector, so an order for it is refused and stores
    nothing; the entries of every other client, and the number of
    connectors on the heap, are unchanged.  When the client was
    registered, its connector has had [disconnect] called on it and the
    client's active flag is gone; when it was not registered, nothing
    changes at all (an active flag that is set stays set). *)
Theorem disconnectClient_unregisters cm clientId :
  let cm' := (Manager.disconnectClient clientId cm).2 in
  (Manager.disconnectClient clientId cm).1 = Returned tt
  /\ Manager.clientAPIs cm' !! clientId = None
  /\ (forall other, other <> clientId ->
        Manager.clientAPIs cm' !! other = Manager.clientAPIs cm !! other
        /\ Manager.activeConnections cm' !! other
           = Manager.activeConnections cm !! other)
  /\ length (Manager.heap cm') = length (Manager.heap cm)
  /\ (forall now request st,
        Manager.tr_clientId request = clientId ->
        Manager.placeTradeForClient now request (cm', st)
        = (Thrown Manager.not_connected, (cm', st)))
  /\ (forall ref s,
        Manager.clientAPIs cm !! clientId = Some ref ->
        Manager.heap cm !! ref = Some s ->
        Manager.heap cm' !! ref
        = Some {| Manager.owner := Manager.owner s;
                  Manager.api := Deriv.disconnect (Manager.api s) |}
        /\ Manager.isClientConnected cm' clientId = false)
  /\ (Manager.clientAPIs cm !! clientId = None -> cm' = cm).
Proof.
  intros cm'.
  assert (Hnone : Manager.clientAPIs cm' !! clientId = None).
  { unfold cm', Manager.disconnectClient.
    destruct (Manager.clientAPIs cm !! clientId) eqn:Href; simpl;
      [apply lookup_delete_eq | exact Href]. }
  split; [| split; [exact Hnone | split; [| split; [| split; [| split]]]]].
  - unfold Manager.disconnectClient.
    now destruct (Manager.clientAPIs cm !! clientId).
  - intros other Hne. unfold cm', Manager.disconnectClient.
    destruct (Manager.clientAPIs cm !! clientId); simpl; [| now split].
    now rewrite !lookup_delete_ne.
  - unfold cm', Manager.disconnectClient.
    destruct (Manager.clientAPIs cm !! clientId); simpl; [| reflexivity].
    apply length_alter.
  - intros now request st <-. now apply placeTradeForClient_unregistered.
  - intros ref s Href Hs. unfold cm', Manager.disconnectClient. rewrite Href.
    simpl. split.
    + now rewrite list_lookup_alter_eq, Hs.
    + unfold Manager.isClientConnected. simpl. now rewrite lookup_delete_eq.
  - intros Href. unfold cm', Manager.disconnectClient. now rewrite Href.
Qed.

(** X9: the active flag belongs to the user, not to the registered
    connector.  A close event on any connector that [connectClient]
    constructed for a user clears that user's flag, and an open event
    sets it, whether or not that connector is still the one registered
    for the user (or registered at all); the registry map itself is not
    touched by either event. *)
Theorem active_flag_follows_any_connector cm ref i s :
  Manager.heap cm !! ref = Some s ->
  (Deriv.enabled (Manager.api s) (Deriv.ws_closed i) = true ->
   Manager.isClientConnected (Manager.ws_closed ref i cm) (Manager.owner s) = false
   /\ Manager.clientAPIs (Manager.ws_closed ref i cm) = Manager.clientAPIs cm)
  /\ (Deriv.enabled (Manager.api s) (Deriv.ws_open i) = true ->
      Manager.isClientConnected (Manager.ws_open ref i cm) (Manager.owner s) = true
      /\ Manager.clientAPIs (Manager.ws_open ref i cm) = Manager.clientAPIs cm).
Proof.
  intros Hs. split; intros Hen.
  - unfold Manager.ws_closed. rewrite Hs, Hen. unfold Manager.on_disconnected.
    rewrite (heap_update_api _ _ _ _ Hs). simpl.
    unfold Manager.isClientConnected. simpl. now rewrite lookup_insert_eq.
  - unfold Manager.ws_open. rewrite Hs, Hen. unfold Manager.on_connected.
    rewrite (heap_update_api _ _ _ _ Hs). simpl.
    unfold Manager.isClientConnected. simpl. now rewrite lookup_insert_eq.
Qed.

Lemma active_flag_follows_any_connector_witness :
  Manager.isClientConnected
    (Manager.ws_closed 0 0
       (Manager.connectClient demo_account registry_connected).2) 7
  = false.
Proof.
  destruct (Manager.heap (Manager.connectClient demo_account registry_connected).2
              !! 0%nat) as [s|] eqn:Hs; [| vm_compute in Hs; discriminate].
  assert (Hs' := Hs). vm_compute in Hs'. injection Hs' as <-.
  refine (proj1 (proj1 (active_flag_follows_any_connector _ 0%nat 0%nat _ Hs) _)).
  vm_compute. reflexivity.
Defined.

(** X10: an order for a registered, active client whose connector has a
    token is recorded as an open trade.  [placeTradeForClient] returns
    the trade, stored under the next trade id with the client as its
    user, the amount rendered by [toString] as its stake, no entry
    price and no closing values.  When the connector's handle is open,
    one [buy] request goes out (contract type CALLE for the trade type
    "CALL", PUTE for anything else); when it is not, the request is
    dropped with a console line and the trade is stored all the same. *)
Theorem placeTradeForClient_stores_open_trade now request cm st ref s :
  Manager.clientAPIs cm !! Manager.tr_clientId request = Some ref ->
  Manager.heap cm !! ref = Some s ->
  Manager.isClientConnected cm (Manager.tr_clientId request) = true ->
  JS.truthy_str (Deriv.apiToken (Manager.api s)) = true ->
  let out := Manager.placeTradeForClient now request (cm, st) in
  let buy :=
    Deriv.Buy (Manager.tr_amount request) (Manager.tr_amount request) "stake"
      (if decide (Manager.tr_tradeType request = "CALL") then "CALLE" else "PUTE")
      "USD" (Manager.tr_duration request) (Manager.tr_durationType request)
      (Manager.tr_symbol request) in
  exists trade,
    out.1 = Returned trade
    /\ Storage.t_id trade = Storage.currentTradeId st
    /\ Storage.t_userId trade = Manager.tr_clientId request
    /\ Storage.t_symbol trade = Manager.tr_symbol request
    /\ Storage.t_stake trade = JS.toString (Manager.tr_amount request)
    /\ Storage.t_status trade = "open"
    /\ Storage.t_entryPrice trade = None
    /\ Storage.t_exitPrice trade = None
    /\ Storage.t_payout trade = None
    /\ Storage.t_profit trade = None
    /\ Storage.t_closedAt trade = None
    /\ Storage.trades out.2.2 !! Storage.currentTradeId st = Some trade
    /\ Manager.clientAPIs out.2.1 = Manager.clientAPIs cm
    /\ (no_open_handle (Manager.api s) ->
        Manager.heap out.2.1 !! ref
        = Some {| Manager.owner := Manager.owner s;
                  Manager.api := Deriv.log Deriv.log_not_connected (Manager.api s) |})
    /\ (forall i sent,
          open_handle (Manager.api s) i sent ->
          exists api',
            Manager.heap out.2.1 !! ref
            = Some {| Manager.owner := Manager.owner s; Manager.api := api' |}
            /\ open_handle api' i (sent ++ [buy])).
Proof.
  intros Href Hs Hact Htok out buy.
  set (order :=
    {| Storage.it_userId := Manager.tr_clientId request;
       Storage.it_symbol := Manager.tr_symbol request;
       Storage.it_tradeType := Manager.tr_tradeType request;
       Storage.it_contractType := Manager.tr_contractType request;
       Storage.it_stake := JS.toString (Manager.tr_amount request);
       Storage.it_entryPrice := None;
       Storage.it_exitPrice := None;
       Storage.it_duration := Manager.tr_duration request;
       Storage.it_durationType :=
         Manager.durationName (Manager.tr_durationType request);
       Storage.it_status := Some "open";
       Storage.it_payout := None;
       Storage.it_profit := None;
       Storage.it_derivTradeId := None |}).
  assert (Hout : out
    = ((Storage.createTrade now order st).1,
       (Manager.update_api ref (fun _ => Deriv.send buy (Manager.api s)) cm,
        (Storage.createTrade now order st).2))).
  { unfold out, Manager.placeTradeForClient. rewrite Href, Hact, Hs. simpl.
    unfold Deriv.placeTrade. rewrite Htok. reflexivity. }
  rewrite Hout. clear Hout out. simpl.
  eexists. split; [reflexivity |]. simpl.
  do 10 (split; [reflexivity |]).
  split; [apply lookup_insert_eq |]. split; [reflexivity |]. split.
  - intros Hno. rewrite list_lookup_alter_eq, Hs. simpl.
    now rewrite (send_dropped _ _ Hno).
  - intros i sent Hopen. eexists. split.
    + rewrite list_lookup_alter_eq, Hs. reflexivity.
    + now apply send_open_handle.
Qed.

Lemma placeTradeForClient_stores_open_trade_witness :
  exists trade,
    (Manager.placeTradeForClient 50 demo_request (registry_connected, store_open)).1
    = Returned trade
    /\ Storage.t_status trade = "open".
Proof.
  destruct (Manager.heap registry_connected !! 0%nat) as [s|] eqn:Hs;
    [| vm_compute in Hs; discriminate].
  assert (Hs' := Hs). vm_compute in Hs'. injection Hs' as <-.
  destruct (placeTradeForClient_stores_open_trade 50 demo_request
              registry_connected store_open 0%nat _ eq_refl Hs eq_refl eq_refl)
    as (trade & Hout & _ & _ & _ & _ & Hstatus & _).
  exists trade. split; [exact Hout | exact Hstatus].
Defined.

Section BulkSubscribe.
Import Deriv.

Lemma foldl_subscribe symbols a :
  let b := foldl (fun a '(u, symbol) => subscribeToTicks u symbol a) a symbols in
  (forall symbol, symbol ∈ symbols.*2 -> is_Some (subscriptions b !! symbol))
  /\ (forall symbol, symbol ∉ symbols.*2 ->
        subscriptions b !! symbol = subscriptions a !! symbol).
Proof.
  revert a. induction symbols as [|[u s0] rest IH]; intros a; simpl.
  - split; [intros symbol H; inversion H | reflexivity].
  - destruct (IH (subscribeToTicks u s0 a)) as [IHin IHout]. split.
    + intros symbol Hin.
      destruct (decide (symbol ∈ rest.*2)) as [Hr | Hr]; [now apply IHin |].
      apply elem_of_cons in Hin as [-> | Hin]; [| contradiction].
      rewrite (IHout _ Hr), subscribeToTicks_subscriptions, lookup_insert_eq.
      eauto.
    + intros symbol Hnot. apply not_elem_of_cons in Hnot as [Hne Hr].
      rewrite (IHout _ Hr), subscribeToTicks_subscriptions.
      now rewrite lookup_insert_ne.
Qed.

End BulkSubscribe.

(** X11: bulk subscription is best effort.  For a client that is not
    registered, or whose active flag is not set,
    [subscribeClientToMarketData] and [unsubscribeClientFromMarketData]
    return without throwing and change nothing.  For a registered,
    active client every listed symbol is in the connector's table
    afterwards and the entries of all other symbols are as before. *)
Theorem bulk_subscription_is_best_effort cm clientId :
  (Manager.clientAPIs cm !! clientId = None
   \/ Manager.isClientConnected cm clientId = false ->
   forall symbols names,
     Manager.subscribeClientToMarketData clientId symbols cm = (Returned tt, cm)
     /\ Manager.unsubscribeClientFromMarketData clientId names cm
        = (Returned tt, cm))
  /\ (forall ref s symbols,
        Manager.clientAPIs cm !! clientId = Some ref ->
        Manager.heap cm !! ref = Some s ->
        Manager.isClientConnected cm clientId = true ->
        (Manager.subscribeClientToMarketData clientId symbols cm).1 = Returned tt
        /\ exists api',
             Manager.heap (Manager.subscribeClientToMarketData clientId symbols cm).2
               !! ref
             = Some {| Manager.owner := Manager.owner s; Manager.api := api' |}
             /\ (forall symbol, symbol ∈ symbols.*2 ->
                   is_Some (Deriv.subscriptions api' !! symbol))
             /\ (forall symbol, symbol ∉ symbols.*2 ->
                   Deriv.subscriptions api' !! symbol
                   = Deriv.subscriptions (Manager.api s) !! symbol)).
Proof.
  split.
  - intros H symbols names.
    unfold Manager.subscribeClientToMarketData,
      Manager.unsubscribeClientFromMarketData.
    destruct H as [-> | ->]; [now split |].
    now destruct (Manager.clientAPIs cm !! clientId).
  - intros ref s symbols Href Hs Hact.
    unfold Manager.subscribeClientToMarketData. rewrite Href, Hact. simpl.
    split; [reflexivity |]. eexists. split.
    + rewrite list_lookup_alter_eq, Hs. reflexivity.
    + apply foldl_subscribe.
Qed.

Lemma bulk_subscription_is_best_effort_witness :
  Manager.subscribeClientToMarketData 9 [(draw_a, "frxEURUSD")] registry_connected
  = (Returned tt, registry_connected).
Proof.
  refine (proj1 (proj1 (bulk_subscription_is_best_effort registry_connected 9) _
                   [(draw_a, "frxEURUSD")] [])).
  left. reflexivity.
Defined.

(** X12: only an authorization result with a non-zero balance reaches
    the storage.  A frame that the ['message'] handler of a connector
    receives, on whatever transport, changes the storage only when its
    type is "authorize", it carries a balance other than zero, and the
    connector's user is in the store; the user's balance then becomes
    the balance rendered by [toString], which is what
    [getClientBalance] returns, and nothing else in the store changes.
    In every other case (another frame type, no balance, a balance of
    zero, an unknown user) the storage is left as it was.  The runtime
    delivers frames on a transport that has opened for as long as it is
    open or closing, so a late frame on a transport that is being
    closed is written to the store like any other. *)
Theorem authorize_frame_sets_balance cm st ref s response :
  Manager.heap cm !! ref = Some s ->
  let st' := (Manager.on_message ref response (cm, st)).2 in
  (Deriv.msg_type response <> Some "authorize" -> st' = st)
  /\ (Deriv.frame_balance response = None -> st' = st)
  /\ (forall b, Deriv.frame_balance response = Some b ->
        (JS.gt b JS.pos_zero || JS.lt b JS.pos_zero)%bool = false -> st' = st)
  /\ (Storage.users st !! Manager.owner s = None -> st' = st)
  /\ (forall b user,
        Deriv.msg_type response = Some "authorize" ->
        Deriv.frame_balance response = Some b ->
        (JS.gt b JS.pos_zero || JS.lt b JS.pos_zero)%bool = true ->
        Storage.users st !! Manager.owner s = Some user ->
        (Storage.u_balance <$> Storage.users st' !! Manager.owner s)
        = Some (Some (JS.toString b))
        /\ (Manager.getClientBalance (Manager.owner s) st').1
           = Returned (JS.or_null (Some (JS.toString b)))
        /\ Storage.trades st' = Storage.trades st
        /\ Storage.markets st' = Storage.markets st
        /\ (forall other, other <> Manager.owner s ->
              Storage.users st' !! other = Storage.users st !! other))
  /\ (forall i t,
        Deriv.transports (Manager.api s) !! i = Some t ->
        Deriv.opened t = true ->
        Deriv.errorEmitted t = false ->
        Deriv.readyState t = Deriv.OPEN \/ Deriv.readyState t = Deriv.CLOSING ->
        Manager.ws_message ref i response (cm, st)
        = Manager.on_message ref response (cm, st)).
Proof.
  intros Hs st'.
  assert (Hst' : st'
    = if decide (Deriv.msg_type response = Some "authorize")
      then (Manager.updateClientBalance (Manager.owner s) response st).2
      else st).
  { unfold st', Manager.on_message. rewrite Hs. now case_decide. }
  rewrite Hst'. clear Hst' st'. unfold Manager.updateClientBalance.
  split; [intros Hne; now rewrite decide_False |].
  split; [intros ->; now case_decide |].
  split; [intros b -> ->; now case_decide |].
  split; [| split].
  - intros Hnone. case_decide; [| reflexivity].
    destruct (Deriv.frame_balance response) as [b|]; [| reflexivity].
    destruct (_ || _)%bool; [| reflexivity].
    unfold Storage.updateUserBalance. now rewrite Hnone.
  - intros b user Hty -> -> Huser. rewrite decide_True by exact Hty.
    unfold Storage.updateUserBalance, Manager.getClientBalance.
    rewrite Huser. simpl. rewrite lookup_insert_eq. simpl.
    repeat split. intros other Hne. now rewrite lookup_insert_ne.
  - intros i t Ht Ho He Hr.
    assert (Hen : Deriv.enabled (Manager.api s) (Deriv.ws_message i response)
                  = true).
    { simpl. unfold Deriv.transport_is. rewrite Ht, Ho, He. simpl.
      destruct Hr as [-> | ->]; reflexivity. }
    unfold Manager.ws_message. cbn [fst]. now rewrite Hs, Hen.
Qed.

Lemma authorize_frame_sets_balance_witness :
  Deriv.state_of
    (Manager.api (default {| Manager.owner := 0; Manager.api := Deriv.new None |}
                    (Manager.heap registry_closing !! 0%nat))) 0
  = Some Deriv.CLOSING
  /\ (Storage.u_balance <$> Storage.users store_client !! 1) = Some (Some "10000.00")
  /\ (Storage.u_balance
        <$> Storage.users
              (Manager.ws_message 0 0 balance_frame
                 (registry_closing, store_client)).2 !! 1)
     = Some (Some "77").
Proof.
  split; [vm_compute; reflexivity |]. split; [vm_compute; reflexivity |].
  destruct (Manager.heap registry_closing !! 0%nat) as [s|] eqn:Hs;
    [| vm_compute in Hs; discriminate].
  assert (Hs' := Hs). vm_compute in Hs'. injection Hs' as <-.
  destruct (Storage.users store_client !! 1) as [user|] eqn:Hu;
    [| vm_compute in Hu; discriminate].
  pose proof (authorize_frame_sets_balance registry_closing store_client
                0%nat _ balance_frame Hs) as H.
  cbv zeta in H. destruct H as (_ & _ & _ & _ & Hset & Hdeliver).
  destruct (Hset (JS.of_Z 77) user eq_refl eq_refl eq_refl Hu) as [Hbalance _].
  rewrite (Hdeliver 0%nat _ eq_refl eq_refl eq_refl (or_intror eq_refl)).
  exact Hbalance.
Defined.

(* ===================================================================== *)
(** ** Further properties of the routes *)
(* ===================================================================== *)

Section MarketFacts.
Import Storage.

Lemma keyed_new now : keyed_by_symbol (new now).
Proof.
  intros key market H. unfold new, demoMarkets in H. simpl in H.
  apply lookup_insert_Some in H as [[<- <-] | [_ H]]; [reflexivity |].
  apply lookup_insert_Some in H as [[<- <-] | [_ H]]; [reflexivity |].
  apply lookup_insert_Some in H as [[<- <-] | [_ H]]; [reflexivity |].
  rewrite lookup_empty in H. discriminate.
Qed.

Lemma keyed_createMarket now insertMarket st :
  keyed_by_symbol st -> keyed_by_symbol (createMarket now insertMarket st).2.
Proof.
  intros Hk key market H. unfold createMarket, set_markets in H. simpl in H.
  apply lookup_insert_Some in H as [[<- <-] | [_ H]];
    [reflexivity | now apply Hk].
Qed.

Lemma keyed_store_markets clock i ms st :
  keyed_by_symbol st -> keyed_by_symbol (Routes.store_markets clock i ms st).
Proof.
  revert i st. induction ms as [|m rest IH]; intros i st Hk; [exact Hk |].
  simpl. apply IH. now apply keyed_createMarket.
Qed.

End MarketFacts.

(** X13: markets stay filed under their own symbol.  This holds in a
    new store (the three demo markets) and is kept by [createMarket],
    by the symbol directory listener and by the tick listener, for any
    tick; the tick listener also never adds or removes a market. *)
Theorem markets_stay_keyed_by_symbol :
  (forall now, keyed_by_symbol (Storage.new now))
  /\ (forall now insertMarket st,
        keyed_by_symbol st ->
        keyed_by_symbol (Storage.createMarket now insertMarket st).2)
  /\ (forall clock active_symbols srv,
        keyed_by_symbol (Routes.storage srv) ->
        keyed_by_symbol
          (Routes.storage (Routes.on_symbols clock active_symbols srv)))
  /\ (forall now now' t srv,
        keyed_by_symbol (Routes.storage srv) ->
        keyed_by_symbol (Routes.storage (Routes.on_tick now now' t srv))
        /\ (forall key,
              is_Some (Storage.markets
                         (Routes.storage (Routes.on_tick now now' t srv)) !! key)
              <-> is_Some (Storage.markets (Routes.storage srv) !! key))).
Proof.
  split; [exact keyed_new |]. split; [exact keyed_createMarket |]. split.
  - intros clock [l|] srv Hk; [| exact Hk]. simpl.
    now apply keyed_store_markets.
  - intros now now' t srv Hk. unfold Routes.on_tick, Storage.updateMarket.
    destruct (Storage.markets (Routes.storage srv) !! Deriv.tick_symbol t)
      as [market|] eqn:Hm; simpl; [| split; [exact Hk | reflexivity]].
    split.
    + intros key market' H. simpl in H.
      apply lookup_insert_Some in H as [[<- <-] | [_ H]];
        [reflexivity | now apply Hk].
    + intros key. rewrite lookup_insert_is_Some. split.
      * intros [<- | [_ H]]; [rewrite Hm; eauto | exact H].
      * intros H. destruct (decide (Deriv.tick_symbol t = key));
          [now left | now right].
Qed.

Lemma markets_stay_keyed_by_symbol_witness :
  keyed_by_symbol
    (Routes.storage
       (Routes.on_tick 100 101
          {| Deriv.tick_symbol := "frxEURUSD";
             Deriv.tick_quote := JS.of_decimal false 10855 (-4);
             Deriv.tick_epoch := 1700000000 |} demo_server)).
Proof.
  apply (proj2 (proj2 (proj2 markets_stay_keyed_by_symbol))).
  apply (proj1 (proj2 markets_stay_keyed_by_symbol)).
  apply (proj1 markets_stay_keyed_by_symbol).
Defined.

(** X14: every tick is broadcast, whether or not its market is known.
    For any tick the listener appends one [price_update], whose data is
    the single update (symbol, quote rendered by [toString], the
    handler's clock reading), to what each open browser client has
    received, and leaves clients that are not open and the connector
    alone.  When the store has no market for the symbol the storage is
    unchanged: the tick is broadcast but not recorded. *)
Theorem tick_is_broadcast_even_for_unknown_market now now' t srv :
  let srv' := Routes.on_tick now now' t srv in
  let update :=
    {| Routes.mu_symbol := Deriv.tick_symbol t;
       Routes.mu_currentPrice := JS.toString (Deriv.tick_quote t);
       Routes.mu_lastUpdate := now |} in
  Routes.clients srv'
  = Routes.deliver (Routes.price_update [update]) <$> Routes.clients srv
  /\ (forall j client,
        Routes.clients srv !! j = Some client ->
        Routes.clients srv' !! j
        = Some (if decide (Routes.ob_readyState client = Deriv.OPEN)
                then {| Routes.ob_readyState := Deriv.OPEN;
                        Routes.received :=
                          Routes.received client
                          ++ [Routes.price_update [update]] |}
                else client))
  /\ Routes.derivAPI srv' = Routes.derivAPI srv
  /\ (Storage.markets (Routes.storage srv) !! Deriv.tick_symbol t = None ->
      Routes.storage srv' = Routes.storage srv)
  /\ (forall market,
        Storage.markets (Routes.storage srv) !! Deriv.tick_symbol t = Some market ->
        Storage.m_currentPrice
          <$> Storage.markets (Routes.storage srv') !! Deriv.tick_symbol t
        = Some (Some (JS.toString (Deriv.tick_quote t)))).
Proof.
  simpl. unfold Routes.on_tick.
  destruct (Storage.updateMarket _ _ _ _) as [out st'] eqn:Hup. simpl.
  split; [reflexivity |]. split.
  - intros j client Hj. rewrite list_lookup_fmap, Hj. simpl.
    unfold Routes.deliver. case_decide as Hopen; [| reflexivity].
    now rewrite Hopen.
  - split; [reflexivity |]. unfold Storage.updateMarket in Hup. split.
    + intros Hnone. rewrite Hnone in Hup. now injection Hup as _ <-.
    + intros market Hm. rewrite Hm in Hup. injection Hup as _ <-.
      simpl. now rewrite lookup_insert_eq.
Qed.

Lemma tick_is_broadcast_even_for_unknown_market_witness :
  Routes.storage
    (Routes.on_tick 100 101
       {| Deriv.tick_symbol := "frxUSDJPY";
          Deriv.tick_quote := JS.of_decimal false 14925 (-2);
          Deriv.tick_epoch := 1700000000 |} demo_server)
  = Routes.storage demo_server.
Proof.
  refine (proj1 (proj2 (proj2 (proj2
            (tick_is_broadcast_even_for_unknown_market 100 101 _ demo_server)))) _).
  vm_compute. reflexivity.
Defined.

(** X15: [POST /api/trades/:tradeId/close] reports success for any
    trade id.  It always answers 200 "Trade closed successfully" and
    always pushes [trade_closed], with the values of the request, to the
    open browser clients.  The store is changed only when the id is
    known, in which case the stored trade is closed with those values;
    for an unknown id the storage is left as it was. *)
Theorem post_close_always_reports_success now tradeId exitPrice payout profit srv :
  let out := Routes.post_close now tradeId exitPrice payout profit srv in
  out.1 = Routes.json_message 200 "Trade closed successfully"
  /\ Routes.clients out.2
     = Routes.deliver (Routes.trade_closed tradeId exitPrice payout profit)
         <$> Routes.clients srv
  /\ Routes.derivAPI out.2 = Routes.derivAPI srv
  /\ (Storage.trades (Routes.storage srv) !! tradeId = None ->
      Routes.storage out.2 = Routes.storage srv)
  /\ (forall trade,
        Storage.trades (Routes.storage srv) !! tradeId = Some trade ->
        Storage.trades (Routes.storage out.2) !! tradeId
        = Some (Storage.close_trade now trade exitPrice payout profit)).
Proof.
  simpl. unfold Routes.post_close, Storage.closeTrade.
  destruct (Storage.trades (Routes.storage srv) !! tradeId) as [trade|]; simpl.
  - repeat split; [discriminate |]. intros ? [= <-]. apply lookup_insert_eq.
  - repeat split. discriminate.
Qed.

Section PostTradesFacts.

Lemma or_null_or_str o d c r :
  d = String c r -> JS.or_null (Some (JS.or_str o d)) = Some (JS.or_str o d).
Proof. intros ->. now destruct o as [[|c' r']|]. Qed.

End PostTradesFacts.

(** X16: what [POST /api/trades] answers and stores.
    - A body that fails validation is answered 400 and an unknown market
      404; in both cases the server is left exactly as it was.
    - Otherwise, unless the connector is connected with a token in the
      environment and none in its own configuration (the case of C8,
      answered 500), the answer is 200: the trade is stored under the next
      trade id with the market's current price (or "0") as entry price,
      the status of the request (or "open") and no payout; the reply and
      the [trade_placed] message pushed to the open browser clients carry
      the same trade with the payout [stake * 1.85] rendered with two
      decimals. *)
Theorem post_trades_outcomes now env_token srv :
  Routes.post_trades now env_token None srv
  = (Routes.json_message 400 "Invalid trade data", srv)
  /\ (forall validatedData,
        Storage.markets (Routes.storage srv) !! Storage.it_symbol validatedData
        = None ->
        Routes.post_trades now env_token (Some validatedData) srv
        = (Routes.json_message 404 "Market not found", srv))
  /\ (forall validatedData market,
        Storage.markets (Routes.storage srv) !! Storage.it_symbol validatedData
        = Some market ->
        (Deriv.isConnected (Routes.derivAPI srv) && JS.truthy_str env_token)%bool
        = false
        \/ JS.truthy_str (Deriv.apiToken (Routes.derivAPI srv)) = true ->
        let out := Routes.post_trades now env_token (Some validatedData) srv in
        let payout :=
          JS.toFixed (JS.mul (JS.parseFloat (Storage.it_stake validatedData))
                             (JS.of_decimal false 185 (-2))) 2 in
        exists stored,
          Storage.trades (Routes.storage out.2)
            !! Storage.currentTradeId (Routes.storage srv) = Some stored
          /\ Storage.t_id stored = Storage.currentTradeId (Routes.storage srv)
          /\ Storage.t_entryPrice stored
             = Some (JS.or_str (Storage.m_currentPrice market) "0")
          /\ Storage.t_status stored
             = JS.or_str (Storage.it_status validatedData) "open"
          /\ Storage.t_stake stored = Storage.it_stake validatedData
          /\ Storage.t_payout stored = None
          /\ Storage.t_exitPrice stored = None
          /\ Storage.t_profit stored = None
          /\ Storage.t_closedAt stored = None
          /\ out.1 = Routes.json_trade 200 (Routes.with_payout stored payout)
          /\ Storage.t_payout (Routes.with_payout stored payout) = Some payout
          /\ Routes.clients out.2
             = Routes.deliver
                 (Routes.trade_placed (Routes.with_payout stored payout))
                 <$> Routes.clients srv
          /\ Storage.markets (Routes.storage out.2)
             = Storage.markets (Routes.storage srv)).
Proof.
  split; [reflexivity |]. split.
  - intros validatedData Hm. unfold Routes.post_trades. now rewrite Hm.
  - intros validatedData market Hm Hcase out payout.
    assert (Hplaced :
      exists api',
        (if (Deriv.isConnected (Routes.derivAPI srv) && JS.truthy_str env_token)%bool
         then Deriv.placeTrade
                {| Deriv.o_symbol := Storage.it_symbol validatedData;
                   Deriv.o_tradeType := Storage.it_tradeType validatedData;
                   Deriv.o_amount := JS.parseFloat (Storage.it_stake validatedData);
                   Deriv.o_duration := Storage.it_duration validatedData;
                   Deriv.o_durationType :=
                     Routes.durationUnit (Storage.it_durationType validatedData);
                   Deriv.o_basis := "stake" |} (Routes.derivAPI srv)
         else (Returned tt, Routes.derivAPI srv))
        = (Returned tt, api')).
    { destruct (_ && _)%bool eqn:Hb; [| eauto].
      destruct Hcase as [Hf | Htok]; [discriminate |].
      unfold Deriv.placeTrade. rewrite Htok. simpl. eauto. }
    destruct Hplaced as [api' Hplaced].
    unfold out, Routes.post_trades. rewrite Hm, Hplaced. simpl.
    eexists. split; [apply lookup_insert_eq |]. simpl.
    split; [reflexivity |].
    split; [now apply (or_null_or_str _ "0" "0" "") |].
    repeat split.
Qed.

Lemma post_trades_outcomes_witness :
  exists stored,
    Storage.trades
      (Routes.storage (Routes.post_trades 50 None (Some demo_order) demo_server).2)
      !! 1 = Some stored
    /\ Storage.t_entryPrice stored = Some "1.08547".
Proof.
  destruct (Storage.markets (Routes.storage demo_server) !! "EUR/USD")
    as [market|] eqn:Hm; [| vm_compute in Hm; discriminate].
  assert (Hm' := Hm). vm_compute in Hm'. injection Hm' as <-.
  destruct (proj2 (proj2 (post_trades_outcomes 50 None demo_server))
              demo_order _ Hm (or_introl (andb_false_r _)))
    as (stored & Hstored & _ & Hentry & _).
  exists stored. split; [exact Hstored | exact Hentry].
Defined.

Section DirectoryFacts.
Import Storage.

Lemma store_markets_keeps_rest clock i ms st :
  users (Routes.store_markets clock i ms st) = users st
  /\ trades (Routes.store_markets clock i ms st) = trades st
  /\ currentUserId (Routes.store_markets clock i ms st) = currentUserId st
  /\ currentTradeId (Routes.store_markets clock i ms st) = currentTradeId st.
Proof.
  revert i st. induction ms as [|m rest IH]; intros i st; [now repeat split |].
  cbn [Routes.store_markets].
  destruct (IH (S i) (createMarket (clock i) m st).2) as (-> & -> & -> & ->).
  now repeat split.
Qed.

Lemma store_markets_directory clock i symbols st :
  (forall key, key ∉ Routes.as_symbol <$> symbols ->
     markets (Routes.store_markets clock i (Routes.directory_market <$> symbols) st)
       !! key
     = markets st !! key)
  /\ (forall key, key ∈ Routes.as_symbol <$> symbols ->
        exists market,
          markets
            (Routes.store_markets clock i (Routes.directory_market <$> symbols) st)
            !! key = Some market
          /\ m_symbol market = key
          /\ m_category market = "forex"
          /\ m_currentPrice market = Some "0.00000"
          /\ m_change market = Some "0.00000"
          /\ m_high market = Some "0.00000"
          /\ m_low market = Some "0.00000"
          /\ m_isActive market = Some true).
Proof.
  revert i st. induction symbols as [|sym rest IH]; intros i st.
  - split; [reflexivity | intros key H; inversion H].
  - rewrite !fmap_cons. cbn [Routes.store_markets].
    destruct (IH (S i) (createMarket (clock i) (Routes.directory_market sym) st).2)
      as [IHout IHin].
    split.
    + intros key Hnot. apply not_elem_of_cons in Hnot as [Hne Hr].
      rewrite (IHout _ Hr). simpl. now rewrite lookup_insert_ne.
    + intros key Hin.
      destruct (decide (key ∈ Routes.as_symbol <$> rest)) as [Hr | Hr];
        [now apply IHin |].
      apply elem_of_cons in Hin as [-> | Hin]; [| contradiction].
      rewrite (IHout _ Hr). simpl. rewrite lookup_insert_eq.
      eexists. split; [reflexivity |]. now repeat split.
Qed.

End DirectoryFacts.

(** X17: the symbol directory listener stores forex major pairs only, at
    most ten of them.  Of the entries of [active_symbols] it takes those
    whose market is "forex" and submarket "major_pairs", keeps the
    first ten, and stores each under its symbol as an active forex
    market with price, change, high and low "0.00000", replacing
    whatever market was stored under that symbol.  Markets under other
    symbols, the users, the trades, the connector and the browser clients
    are untouched, and a frame without [active_symbols] changes
    nothing. *)
Theorem symbol_directory_stores_forex_majors clock active_symbols srv :
  let chosen :=
    take 10
      (filter (fun symbol =>
                 Routes.as_market symbol = "forex"
                 /\ Routes.as_submarket symbol = "major_pairs") active_symbols) in
  let srv' := Routes.on_symbols clock (Some active_symbols) srv in
  (length chosen <= 10)%nat
  /\ (forall symbol, symbol ∈ chosen ->
        symbol ∈ active_symbols
        /\ Routes.as_market symbol = "forex"
        /\ Routes.as_submarket symbol = "major_pairs")
  /\ (forall key, key ∉ Routes.as_symbol <$> chosen ->
        Storage.markets (Routes.storage srv') !! key
        = Storage.markets (Routes.storage srv) !! key)
  /\ (forall key, key ∈ Routes.as_symbol <$> chosen ->
        exists market,
          Storage.markets (Routes.storage srv') !! key = Some market
          /\ Storage.m_symbol market = key
          /\ Storage.m_category market = "forex"
          /\ Storage.m_currentPrice market = Some "0.00000"
          /\ Storage.m_change market = Some "0.00000"
          /\ Storage.m_high market = Some "0.00000"
          /\ Storage.m_low market = Some "0.00000"
          /\ Storage.m_isActive market = Some true)
  /\ Storage.users (Routes.storage srv') = Storage.users (Routes.storage srv)
  /\ Storage.trades (Routes.storage srv') = Storage.trades (Routes.storage srv)
  /\ Routes.derivAPI srv' = Routes.derivAPI srv
  /\ Routes.clients srv' = Routes.clients srv
  /\ Routes.on_symbols clock None srv = srv.
Proof.
  intros chosen srv'.
  split; [unfold chosen; rewrite length_take; lia |]. split.
  - intros symbol Hin. unfold chosen in Hin.
    apply elem_of_take in Hin as (j & Hj & _).
    apply list_elem_of_lookup_2 in Hj.
    apply list_elem_of_filter in Hj as [[H1 H2] H3]. now repeat split.
  - pose proof (store_markets_directory clock 0 chosen (Routes.storage srv))
      as [Hout Hin].
    pose proof (store_markets_keeps_rest clock 0
                  (Routes.directory_market <$> chosen) (Routes.storage srv))
      as (Hu & Ht & _ & _).
    split; [exact Hout |]. split; [exact Hin |].
    split; [exact Hu |]. split; [exact Ht |]. now repeat split.
Qed.

Section OpenFacts.
Import Deriv.

Lemma send_apiToken data a : apiToken (send data a) = apiToken a.
Proof.
  unfold send. destruct (ws a) as [i|]; [| reflexivity].
  destruct (transports a !! i); [| reflexivity]. now case_decide.
Qed.

Lemma send_flags data a :
  isConnected (send data a) = isConnected a /\ emitted (send data a) = emitted a.
Proof.
  unfold send. destruct (ws a) as [i|]; [| now split].
  destruct (transports a !! i); [| now split]. now case_decide.
Qed.

Lemma subscribeToTicks_open_handle u symbol a i out :
  open_handle a i out ->
  open_handle (subscribeToTicks u symbol a) i
    (out ++ [Ticks symbol (generateRequestId u)]).
Proof.
  intros H. unfold subscribeToTicks.
  apply (send_open_handle _
           (with_subscriptions
              (<[symbol := generateRequestId u]> (subscriptions a)) a)).
  exact H.
Qed.

Lemma subscribeToTicks_keeps u symbol a :
  apiToken (subscribeToTicks u symbol a) = apiToken a
  /\ reconnectAttempts (subscribeToTicks u symbol a) = reconnectAttempts a
  /\ isConnected (subscribeToTicks u symbol a) = isConnected a
  /\ emitted (subscribeToTicks u symbol a) = emitted a.
Proof.
  unfold subscribeToTicks.
  rewrite send_apiToken, send_reconnectAttempts.
  destruct (send_flags (Ticks symbol (generateRequestId u))
              (with_subscriptions
                 (<[symbol := generateRequestId u]> (subscriptions a)) a))
    as [-> ->].
  now repeat split.
Qed.

End OpenFacts.

(** X18: when the server's connection opens, the market data requests
    go out before the credential.  If the transport behind the handle
    opens and the connector has a non-empty token, the transport is
    sent, in this order, the symbol directory request, a [ticks] request
    for each of frxEURUSD, frxGBPUSD, frxUSDJPY and frxAUDUSD with a
    newly generated id, and only then [authorize].  The table maps the
    four symbols to the new ids (ids stored for them before are
    overwritten, and no [forget] is sent for those), the connected flag
    is set and the attempt counter is zero. *)
Theorem server_open_subscribes_before_authorizing u1 u2 u3 u4 i t c r srv :
  Deriv.ws (Routes.derivAPI srv) = Some i ->
  Deriv.transports (Routes.derivAPI srv) !! i = Some t ->
  Deriv.readyState t = Deriv.CONNECTING ->
  Deriv.apiToken (Routes.derivAPI srv) = Some (String c r) ->
  let a' := Routes.derivAPI (Routes.ws_open u1 u2 u3 u4 i srv) in
  open_handle a' i
    (Deriv.outbox t
     ++ [ Deriv.ActiveSymbols;
          Deriv.Ticks "frxEURUSD" (Deriv.generateRequestId u1);
          Deriv.Ticks "frxGBPUSD" (Deriv.generateRequestId u2);
          Deriv.Ticks "frxUSDJPY" (Deriv.generateRequestId u3);
          Deriv.Ticks "frxAUDUSD" (Deriv.generateRequestId u4);
          Deriv.Authorize (String c r) ])
  /\ Deriv.subscriptions a'
     = <["frxAUDUSD" := Deriv.generateRequestId u4]>
         (<["frxUSDJPY" := Deriv.generateRequestId u3]>
            (<["frxGBPUSD" := Deriv.generateRequestId u2]>
               (<["frxEURUSD" := Deriv.generateRequestId u1]>
                  (Deriv.subscriptions (Routes.derivAPI srv)))))
  /\ Deriv.isConnected a' = true
  /\ Deriv.reconnectAttempts a' = 0
  /\ Deriv.emitted a' = Deriv.emitted (Routes.derivAPI srv) ++ [Deriv.connected].
Proof.
  intros Hws Ht Hconn Htok a'.
  set (a := Routes.derivAPI srv) in *.
  set (a0 := Deriv.emit Deriv.connected
               (Deriv.with_reconnectAttempts 0
                  (Deriv.with_isConnected true
                     (Deriv.log Deriv.log_connected
                        (Deriv.set_opened i
                           (Deriv.set_readyState i Deriv.OPEN a)))))).
  set (a1 := Deriv.getActiveSymbols a0).
  set (a2 := Deriv.subscribeToTicks u1 "frxEURUSD" a1).
  set (a3 := Deriv.subscribeToTicks u2 "frxGBPUSD" a2).
  set (a4 := Deriv.subscribeToTicks u3 "frxUSDJPY" a3).
  set (a5 := Deriv.subscribeToTicks u4 "frxAUDUSD" a4).
  assert (Hen : Deriv.enabled a (Deriv.ws_open i) = true).
  { simpl. apply bool_decide_eq_true. unfold Deriv.state_of.
    rewrite Ht. simpl. now rewrite Hconn. }
  assert (H0 : open_handle a0 i (Deriv.outbox t)).
  { split; [exact Hws |]. simpl. rewrite !list_lookup_alter_eq, Ht. simpl.
    eexists. repeat split. }
  assert (H1 := send_open_handle Deriv.ActiveSymbols a0 i _ H0). fold a1 in H1.
  assert (H2 := subscribeToTicks_open_handle u1 "frxEURUSD" a1 i _ H1). fold a2 in H2.
  assert (H3 := subscribeToTicks_open_handle u2 "frxGBPUSD" a2 i _ H2). fold a3 in H3.
  assert (H4 := subscribeToTicks_open_handle u3 "frxUSDJPY" a3 i _ H3). fold a4 in H4.
  assert (H5 := subscribeToTicks_open_handle u4 "frxAUDUSD" a4 i _ H4). fold a5 in H5.
  destruct (subscribeToTicks_keeps u1 "frxEURUSD" a1) as (T2 & R2 & C2 & E2). fold a2 in T2, R2, C2, E2.
  destruct (subscribeToTicks_keeps u2 "frxGBPUSD" a2) as (T3 & R3 & C3 & E3). fold a3 in T3, R3, C3, E3.
  destruct (subscribeToTicks_keeps u3 "frxUSDJPY" a3) as (T4 & R4 & C4 & E4). fold a4 in T4, R4, C4, E4.
  destruct (subscribeToTicks_keeps u4 "frxAUDUSD" a4) as (T5 & R5 & C5 & E5). fold a5 in T5, R5, C5, E5.
  assert (T1 : Deriv.apiToken a1 = Some (String c r))
    by (unfold a1, Deriv.getActiveSymbols; rewrite send_apiToken; exact Htok).
  assert (R1 : Deriv.reconnectAttempts a1 = 0)
    by (unfold a1, Deriv.getActiveSymbols; now rewrite send_reconnectAttempts).
  destruct (send_flags Deriv.ActiveSymbols a0) as [C1 E1].
  assert (T5' : Deriv.apiToken a5 = Some (String c r)) by congruence.
  assert (Ha' : a' = Deriv.send (Deriv.Authorize (String c r)) a5).
  { unfold a', Routes.ws_open. fold a. rewrite Hen.
    unfold Routes.with_derivAPI, Routes.derivAPI, Deriv.on_open.
    cbv beta zeta. fold a0.
    change (Routes.on_connected u1 u2 u3 u4 a0) with a5.
    rewrite T5'. simpl. unfold Deriv.authorize. now rewrite T5'. }
  rewrite Ha'. split; [| split; [| split; [| split]]].
  - pose proof (send_open_handle (Deriv.Authorize (String c r)) a5 i _ H5) as H6.
    now rewrite <- !app_assoc in H6.
  - rewrite send_subscriptions. unfold a5, a4, a3, a2.
    rewrite !subscribeToTicks_subscriptions. unfold a1, Deriv.getActiveSymbols.
    now rewrite send_subscriptions.
  - rewrite (proj1 (send_flags _ _)), C5, C4, C3, C2.
    unfold a1, Deriv.getActiveSymbols. now rewrite C1.
  - rewrite send_reconnectAttempts. congruence.
  - rewrite (proj2 (send_flags _ _)), E5, E4, E3, E2.
    unfold a1, Deriv.getActiveSymbols. now rewrite E1.
Qed.

Lemma server_open_subscribes_before_authorizing_witness :
  Deriv.reconnectAttempts
    (Routes.derivAPI
       (Routes.ws_open draw_a draw_b draw_a draw_b 0
          {| Routes.derivAPI := api_connecting; Routes.clients := [];
             Routes.storage := store_open |}))
  = 0.
Proof.
  refine (proj1 (proj2 (proj2 (proj2
            (server_open_subscribes_before_authorizing draw_a draw_b draw_a draw_b
               0%nat {| Deriv.readyState := Deriv.CONNECTING; Deriv.outbox := [];
                        Deriv.opened := false; Deriv.errorEmitted := false |}
               "t" "oken" _ _ _ _ _))))); reflexivity.
Defined.

(* ===================================================================== *)
(** ** The registry and its heap *)
(* ===================================================================== *)

Section RegistryRefs.
Import Manager.

Lemma registry_refs_ok_update_api ref f cm :
  registry_refs_ok cm -> registry_refs_ok (update_api ref f cm).
Proof.
  intros H clientId ref' Href. destruct (H _ _ Href) as (s & Hs & Ho).
  unfold update_api. simpl. destruct (decide (ref = ref')) as [<- | Hne].
  - rewrite list_lookup_alter_eq, Hs. simpl. eauto.
  - rewrite list_lookup_alter_ne by exact Hne. eauto.
Qed.

End RegistryRefs.

(** X19: the registry never dangles.  In a new registry, and after any
    of the manager's operations and transport events (an error that a
    transport reports included), every registered
    client id refers to a connector that exists on the heap and was
    constructed for that same client, so the connector an order or a
    subscription is routed to is always the client's own. *)
Theorem registry_refs_always_ok :
  registry_refs_ok Manager.new
  /\ (forall cm,
        registry_refs_ok cm ->
        (forall account, registry_refs_ok (Manager.connectClient account cm).2)
        /\ (forall clientId, registry_refs_ok (Manager.disconnectClient clientId cm).2)
        /\ (forall clientId symbols,
              registry_refs_ok
                (Manager.subscribeClientToMarketData clientId symbols cm).2)
        /\ (forall clientId symbols,
              registry_refs_ok
                (Manager.unsubscribeClientFromMarketData clientId symbols cm).2)
        /\ (forall now request st,
              registry_refs_ok
                (Manager.placeTradeForClient now request (cm, st)).2.1)
        /\ (forall ref i, registry_refs_ok (Manager.ws_open ref i cm))
        /\ (forall ref i, registry_refs_ok (Manager.ws_closed ref i cm))
        /\ (forall ref j, registry_refs_ok (Manager.timeout ref j cm))
        /\ (forall ref i response st,
              registry_refs_ok (Manager.ws_message ref i response (cm, st)).1)
        /\ (forall ref i, registry_refs_ok (Manager.ws_error ref i cm))).
Proof.
  split.
  - intros clientId ref H. simpl in H. rewrite lookup_empty in H. discriminate.
  - intros cm Hok. repeat split.
    + intros account clientId ref. simpl. rewrite lookup_insert.
      case_decide as Heq.
      * intros [= <-]. rewrite lookup_app_r by lia. rewrite Nat.sub_diag.
        simpl. eauto.
      * intros Href. destruct (Hok _ _ Href) as (s & Hs & Ho).
        exists s. split; [now apply lookup_app_l_Some | exact Ho].
    + intros clientId. unfold Manager.disconnectClient.
      destruct (Manager.clientAPIs cm !! clientId) as [ref|]; [| exact Hok].
      intros other ref'. simpl. intros Href.
      apply lookup_delete_Some in Href as [_ Href].
      apply (registry_refs_ok_update_api ref Deriv.disconnect cm Hok _ _ Href).
    + intros clientId symbols. unfold Manager.subscribeClientToMarketData.
      destruct (Manager.clientAPIs cm !! clientId); [| exact Hok].
      destruct (Manager.isClientConnected cm clientId); [| exact Hok].
      now apply registry_refs_ok_update_api.
    + intros clientId symbols. unfold Manager.unsubscribeClientFromMarketData.
      destruct (Manager.clientAPIs cm !! clientId); [| exact Hok].
      destruct (Manager.isClientConnected cm clientId); [| exact Hok].
      now apply registry_refs_ok_update_api.
    + intros now request st. unfold Manager.placeTradeForClient.
      destruct (Manager.clientAPIs cm !! _) as [ref|]; [| exact Hok].
      destruct (Manager.isClientConnected cm _); simpl; [| exact Hok].
      destruct (Manager.heap cm !! ref) as [s|]; [| exact Hok].
      destruct (Deriv.placeTrade _ _) as [[[]|msg] api']; simpl;
        now apply registry_refs_ok_update_api.
    + intros ref i. unfold Manager.ws_open.
      destruct (Manager.heap cm !! ref) as [s|] eqn:Hs; [| exact Hok].
      destruct (Deriv.enabled _ _); [| exact Hok].
      unfold Manager.on_connected.
      destruct (Manager.heap (Manager.update_api ref _ cm) !! ref);
        now apply registry_refs_ok_update_api.
    + intros ref i. unfold Manager.ws_closed.
      destruct (Manager.heap cm !! ref) as [s|] eqn:Hs; [| exact Hok].
      destruct (Deriv.enabled _ _); [| exact Hok].
      unfold Manager.on_disconnected.
      destruct (Manager.heap (Manager.update_api ref _ cm) !! ref);
        now apply registry_refs_ok_update_api.
    + intros ref j. now apply registry_refs_ok_update_api.
    + intros ref i response st. unfold Manager.ws_message. cbn [fst].
      destruct (Manager.heap cm !! ref) as [s|] eqn:Hs; [| exact Hok].
      destruct (Deriv.enabled _ _); [| exact Hok].
      unfold Manager.on_message. rewrite Hs.
      case_decide; now apply registry_refs_ok_update_api.
    + intros ref i. unfold Manager.ws_error.
      destruct (Manager.heap cm !! ref) as [s|]; [| exact Hok].
      destruct (Deriv.enabled _ _); [| exact Hok].
      now apply registry_refs_ok_update_api.
Qed.

Lemma registry_refs_always_ok_witness :
  registry_refs_ok (Manager.connectClient demo_account Manager.new).2.
Proof.
  apply (proj1 (proj2 registry_refs_always_ok Manager.new
                  (proj1 registry_refs_always_ok))).
Defined.
